(** * JWT banking API: the token gate, the credential issuer and the ledger

    A shallow embedding of the Express server ([POST /login], [GET /balance],
    [POST /deposit], [POST /withdraw]) and of [middleware/authMiddleware.js],
    followed by the properties of the gate and of the balance state machine.

    - JavaScript numbers are IEEE 754 binary64 values: they are modelled by
      the primitive [float] type, whose operations are specified by
      [SpecFloat] through [FloatAxioms].
    - [userDatabase] is an object used as a map from user names to records:
      it is a [gmap string User].  Properties inherited from
      [Object.prototype] are outside the model.
    - The identity claim of a token is a string or is missing; the times are
      whole seconds.
    - A handler is a function from the request data and the database to a
      response and the database after the request.  The [catch] blocks that
      answer 500 guard statements that cannot throw on the request data
      modelled here, so they have no counterpart. *)

From Stdlib Require Import ZArith Floats Ascii String List Lia Bool.
From stdpp Require Import gmap strings.
Import ListNotations.
Local Open Scope Z_scope.

(** ** JavaScript values and built-ins *)

Module Js.

(** The values a parsed request body can hold in a field, with [JUndefined]
    for a field that is absent.  Arrays and objects only matter through the
    string [String(v)] gives for them, which [JObject] carries. *)
Inductive JsValue :=
| JUndefined
| JNull
| JBool (b : bool)
| JNumber (x : float)
| JString (s : string)
| JObject (str : string).

(** [!!v] *)
Definition truthy (v : JsValue) : bool :=
  match v with
  | JUndefined | JNull => false
  | JBool b => b
  | JNumber x => negb (is_nan x || is_zero x)
  | JString s => negb (s =? "")%string
  | JObject _ => true
  end.

(** [v === s] for a string constant [s] *)
Definition strict_eq_string (v : JsValue) (s : string) : bool :=
  match v with
  | JString t => (t =? s)%string
  | _ => false
  end.

(** [v === undefined || v === null] *)
Definition nullish (v : JsValue) : bool :=
  match v with
  | JUndefined | JNull => true
  | _ => false
  end.

(** [s.split(sep)] for a one-character separator: never empty, and
    [""] splits into [[""]]. *)
Fixpoint split (sep : ascii) (s : string) : list string :=
  match s with
  | EmptyString => [EmptyString]
  | String c s' =>
      if Ascii.eqb c sep then EmptyString :: split sep s'
      else match split sep s' with
           | w :: ws => String c w :: ws
           | [] => [String c EmptyString]
           end
  end.

(** *** [parseFloat] on strings

    The longest prefix of the trimmed string that is a
    [StrDecimalLiteral], rounded to the nearest double (ties to even);
    [NaN] when there is none.  Strings are byte strings: the white space
    skipped is TAB, LF, VT, FF, CR and SP. *)

Definition is_ws (c : ascii) : bool :=
  let n := N_of_ascii c in
  ((9 <=? n) && (n <=? 13))%N || (n =? 32)%N.

Definition digit_of (c : ascii) : option Z :=
  let n := Z.of_N (N_of_ascii c) in
  if (48 <=? n) && (n <=? 57) then Some (n - 48) else None.

Fixpoint skip_ws (s : string) : string :=
  match s with
  | String c s' => if is_ws c then skip_ws s' else s
  | EmptyString => s
  end.

Definition take_sign (s : string) : bool * string :=
  match s with
  | String "-" s' => (true, s')
  | String "+" s' => (false, s')
  | _ => (false, s)
  end.

(** Reads decimal digits: the number read so far, how many digits, and
    what follows them. *)
Fixpoint read_digits (s : string) (acc cnt : Z) : Z * Z * string :=
  match s with
  | String c s' =>
      match digit_of c with
      | Some d => read_digits s' (10 * acc + d) (cnt + 1)
      | None => (acc, cnt, s)
      end
  | EmptyString => (acc, cnt, s)
  end.

(** The double nearest to [m * 10 ^ e10], with the sign [neg]. *)
Definition decimal_to_float (neg : bool) (m e10 : Z) : float :=
  let mag :=
    match m with
    | Zpos p =>
        if 0 <=? e10
        then SF2Prim (binary_normalize prec emax (m * 10 ^ e10) 0 false)
        else SF2Prim (SFdiv prec emax (S754_finite false p 0)
                        (S754_finite false (Z.to_pos (10 ^ (- e10))) 0))
    | _ => 0%float
    end in
  if neg then (- mag)%float else mag.

(** An [ExponentPart] is read only when a digit follows [e] and its sign. *)
Definition exponent_part (s : string) : Z :=
  match s with
  | String c t =>
      if (Ascii.eqb c "e" || Ascii.eqb c "E")%bool then
        let (eneg, t') := take_sign t in
        let '(ev, ec, _) := read_digits t' 0 0 in
        if ec =? 0 then 0 else if eneg then - ev else ev
      else 0
  | EmptyString => 0
  end.

Definition parse_decimal (s : string) : float :=
  let (neg, s0) := take_sign (skip_ws s) in
  if String.prefix "Infinity" s0 then (if neg then neg_infinity else infinity) else
  let '(ip, ic, s1) := read_digits s0 0 0 in
  let '(m, fc, s2) :=
    match s1 with
    | String "." t => read_digits t ip 0
    | _ => (ip, 0, s1)
    end in
  if ic + fc =? 0 then nan else decimal_to_float neg m (exponent_part s2 - fc).

(** [parseFloat(v)] parses [String(v)].  For a number, [String] prints the
    shortest decimal that reads back as the same double, and prints [-0]
    as ["0"]: the number comes back, with [-0] turned into [0].
    ["undefined"], ["null"], ["true"] and ["false"] have no numeric
    prefix. *)
Definition parseFloat (v : JsValue) : float :=
  match v with
  | JNumber x => if is_zero x then 0%float else x
  | JString s | JObject s => parse_decimal s
  | JUndefined | JNull | JBool _ => nan
  end.

(** [isNaN(x)] for a number [x] *)
Definition isNaN (x : float) : bool := is_nan x.

End Js.
Export Js.

(** ** Responses *)

(** A value of a response body.  [FTemplate s x] is the string a template
    literal [`s${x}`] builds; [FDate t] is the [Date] at [t] seconds of the
    epoch. *)
Inductive Field :=
| FUndefined
| FString (s : string)
| FNumber (x : float)
| FTemplate (s : string) (x : float)
| FDate (t : Z).

(** [res.status(status).json(body)] *)
Record Response := { status : Z; body : list (string * Field) }.

Definition json (st : Z) (b : list (string * Field)) : Response :=
  {| status := st; body := b |}.

(** [username] in a response body: the identity claim, when there is one. *)
Definition of_name (u : option string) : Field :=
  match u with
  | Some s => FString s
  | None => FUndefined
  end.

(** ** The [jsonwebtoken] library *)

Module jwt.

(** The claims of a token: the identity, when the token has one, and the
    issued-at and expiry timestamps, in seconds. *)
Record Payload := { username : option string; iat : Z; exp : Z }.

(** A decoded token: the claims and the signature that came with them. *)
Record Jws := { payload : Payload; signature : string }.

(** What [verify] throws.  [expiredAt] is set by [TokenExpiredError] only. *)
Record Error := { name : string; message : string; expiredAt : option Z }.

Inductive Result :=
| Decoded (p : Payload)
| Throw (e : Error).

Section Codec.

(** The MAC of the claims under a key, and the compact serialisation of a
    token with its parser. *)
Variable mac : string -> Payload -> string.
Variable encode : Jws -> string.
Variable decode : string -> option Jws.

(** Modelled from the spec: [jwt.sign] of the library [jsonwebtoken], which
    is not part of the sources.  The claims are the identity, issued-at =
    now and expiry = now + lifetime; they are signed with the secret. *)
Definition sign (user : option string) (secret : string) (lifetime now : Z) : string :=
  let p := {| username := user; iat := now; exp := now + lifetime |} in
  encode {| payload := p; signature := mac secret p |}.

(** Modelled from the spec: [jwt.verify] of the library [jsonwebtoken],
    which is not part of the sources.  A token that does not parse or whose
    signature does not verify against the secret is invalid; a token whose
    signature verifies is expired unless its expiry is in the future. *)
Definition verify (token secret : string) (now : Z) : Result :=
  match decode token with
  | None =>
      Throw {| name := "JsonWebTokenError"; message := "jwt malformed";
               expiredAt := None |}
  | Some j =>
      if (signature j =? mac secret (payload j))%string then
        if now <? exp (payload j) then Decoded (payload j)
        else Throw {| name := "TokenExpiredError"; message := "jwt expired";
                      expiredAt := Some (exp (payload j)) |}
      else Throw {| name := "JsonWebTokenError"; message := "invalid signature";
                    expiredAt := None |}
  end.

End Codec.

End jwt.

(** ** Configuration *)

Definition default_JWT_SECRET : string := "your-secret-key-change-this-in-production".

(** [process.env.JWT_SECRET || default]: an unset or empty variable gives the
    default. *)
Definition configured_secret (env : option string) : string :=
  match env with
  | Some s => if (s =? "")%string then default_JWT_SECRET else s
  | None => default_JWT_SECRET
  end.

(** The default ['24h'] of [JWT_EXPIRES_IN], in seconds. *)
Definition default_JWT_EXPIRES_IN : Z := 24 * 60 * 60.

Definition VALID_USERNAME : string := "john_doe".
Definition VALID_PASSWORD : string := "password123".

(** ** The error responses, under the names the specification gives them *)

Definition NoToken : Response :=
  json 401 [("error", FString "No token provided");
            ("message", FString "Authorization header is missing")].

Definition MalformedHeader : Response :=
  json 401 [("error", FString "Invalid token format");
            ("message", FString "Authorization header must be in format: Bearer <token>")].

Definition TokenExpired (expiredAt : option Z) : Response :=
  json 401 [("error", FString "Token expired");
            ("message", FString "Your session has expired. Please login again.");
            ("expiredAt", match expiredAt with Some t => FDate t | None => FUndefined end)].

Definition InvalidToken : Response :=
  json 401 [("error", FString "Invalid token");
            ("message", FString "The provided token is invalid or malformed")].

Definition VerificationFailed (msg : string) : Response :=
  json 401 [("error", FString "Token verification failed"); ("message", FString msg)].

Definition MissingFields : Response :=
  json 400 [("error", FString "Username and password are required")].

Definition InvalidCredentials : Response :=
  json 401 [("error", FString "Invalid credentials")].

Definition NotFound : Response :=
  json 404 [("error", FString "User not found")].

Definition AmountRequired : Response :=
  json 400 [("error", FString "Amount is required")].

Definition InvalidAmount : Response :=
  json 400 [("error", FString "Amount must be a valid number")].

Definition NonPositiveAmount : Response :=
  json 400 [("error", FString "Amount must be greater than 0")].

Definition InsufficientFunds (currentBalance : float) : Response :=
  json 400 [("error", FString "Insufficient balance");
            ("currentBalance", FNumber currentBalance)].

(** ** The ledger *)

Record User := { password : string; balance : float }.

Definition userDatabase : gmap string User :=
  {[ "john_doe"%string := {| password := "password123"; balance := 5000 |} ]}.

(** The property key of [userDatabase[username]]: [undefined] is looked up
    as ["undefined"]. *)
Definition property_key (username : option string) : string :=
  match username with
  | Some s => s
  | None => "undefined"
  end.

(** [user.balance = b] on the record stored under [key] *)
Definition set_balance (key : string) (u : User) (b : float)
    (db : gmap string User) : gmap string User :=
  <[ key := {| password := password u; balance := b |} ]> db.

(** The handler of [GET /balance], after the gate. *)
Definition get_balance (user : jwt.Payload) (db : gmap string User) : Response :=
  let username := jwt.username user in
  match db !! property_key username with
  | None => NotFound
  | Some u =>
      json 200 [("username", of_name username); ("balance", FNumber (balance u))]
  end.

(** The handler of [POST /deposit], after the gate. *)
Definition post_deposit (user : jwt.Payload) (amount : JsValue)
    (db : gmap string User) : Response * gmap string User :=
  let username := jwt.username user in
  match db !! property_key username with
  | None => (NotFound, db)
  | Some u =>
      if nullish amount then (AmountRequired, db) else
      let numAmount := parseFloat amount in
      if isNaN numAmount then (InvalidAmount, db) else
      if (numAmount <=? 0)%float then (NonPositiveAmount, db) else
      let b := (balance u + numAmount)%float in
      (json 200 [("username", of_name username); ("balance", FNumber b);
                 ("message", FTemplate "Deposited $" numAmount)],
       set_balance (property_key username) u b db)
  end.

(** The handler of [POST /withdraw], after the gate. *)
Definition post_withdraw (user : jwt.Payload) (amount : JsValue)
    (db : gmap string User) : Response * gmap string User :=
  let username := jwt.username user in
  match db !! property_key username with
  | None => (NotFound, db)
  | Some u =>
      if nullish amount then (AmountRequired, db) else
      let numAmount := parseFloat amount in
      if isNaN numAmount then (InvalidAmount, db) else
      if (numAmount <=? 0)%float then (NonPositiveAmount, db) else
      if (balance u <? numAmount)%float then (InsufficientFunds (balance u), db) else
      let b := (balance u - numAmount)%float in
      (json 200 [("username", of_name username); ("balance", FNumber b);
                 ("message", FTemplate "Withdrew $" numAmount)],
       set_balance (property_key username) u b db)
  end.

(** ** The gate, the issuer and the routes *)

(** What the middleware does with a request: call [next()] with [req.user]
    set, or answer. *)
Inductive Outcome :=
| Next (user : jwt.Payload)
| Respond (res : Response).

Inductive Request :=
| PostLogin (username password : JsValue)
| GetBalance (authorization : option string)
| PostDeposit (authorization : option string) (amount : JsValue)
| PostWithdraw (authorization : option string) (amount : JsValue).

Section Server.

Variable mac : string -> jwt.Payload -> string.
Variable encode : jwt.Jws -> string.
Variable decode : string -> option jwt.Jws.

(** The configuration read at start-up: the shared secret and the lifetime
    of a token, in seconds. *)
Variable JWT_SECRET : string.
Variable JWT_EXPIRES_IN : Z.

(** The [try] block around [jwt.verify] and its [catch]. *)
Definition verify_token (token : string) (now : Z) : Outcome :=
  match jwt.verify mac decode token JWT_SECRET now with
  | jwt.Decoded decoded => Next decoded
  | jwt.Throw verifyError =>
      if (jwt.name verifyError =? "TokenExpiredError")%string
      then Respond (TokenExpired (jwt.expiredAt verifyError))
      else if (jwt.name verifyError =? "JsonWebTokenError")%string
      then Respond InvalidToken
      else Respond (VerificationFailed (jwt.message verifyError))
  end.

(** [authMiddleware], on [req.headers.authorization]. *)
Definition authMiddleware (authHeader : option string) (now : Z) : Outcome :=
  match authHeader with
  | None => Respond NoToken
  | Some h =>
      if negb (truthy (JString h)) then Respond NoToken else
      let parts := split " " h in
      if negb (length parts =? 2)%nat || negb (nth 0 parts "" =? "Bearer")%string
      then Respond MalformedHeader
      else verify_token (nth 1 parts "") now
  end.

(** The handler of [POST /login].  Past the two checks [username] is the
    string ['john_doe'], which becomes the identity claim. *)
Definition post_login (username password : JsValue) (now : Z) : Response :=
  if negb (truthy username) || negb (truthy password) then MissingFields else
  if negb (strict_eq_string username VALID_USERNAME)
     || negb (strict_eq_string password VALID_PASSWORD)
  then InvalidCredentials
  else
    let claim := match username with JString s => Some s | _ => None end in
    json 200 [("message", FString "Login successful");
              ("token", FString (jwt.sign mac encode claim JWT_SECRET JWT_EXPIRES_IN now))].

(** A route with [authMiddleware] in front of its handler. *)
Definition protected (authorization : option string) (now : Z)
    (handler : jwt.Payload -> gmap string User -> Response * gmap string User)
    (db : gmap string User) : Response * gmap string User :=
  match authMiddleware authorization now with
  | Next user => handler user db
  | Respond res => (res, db)
  end.

(** The application: the answer to a request received at time [now], and the
    database after it. *)
Definition app (req : Request) (now : Z) (db : gmap string User)
    : Response * gmap string User :=
  match req with
  | PostLogin username password => (post_login username password now, db)
  | GetBalance a => protected a now (fun user db => (get_balance user db, db)) db
  | PostDeposit a amount => protected a now (fun user => post_deposit user amount) db
  | PostWithdraw a amount => protected a now (fun user => post_withdraw user amount) db
  end.

(** The database after a sequence of requests, each with its arrival time. *)
Fixpoint run (reqs : list (Request * Z)) (db : gmap string User) : gmap string User :=
  match reqs with
  | [] => db
  | (req, now) :: rest => run rest (snd (app req now db))
  end.

End Server.

(** A database the server can be in: [userDatabase] after some requests. *)
Definition reachable mac encode decode secret lifetime (db : gmap string User) : Prop :=
  exists reqs, db = run mac encode decode secret lifetime reqs userDatabase.

(** ** Vocabulary of the statements *)

(** [c] occurs in [s]. *)
Fixpoint contains (c : ascii) (s : string) : bool :=
  match s with
  | EmptyString => false
  | String d s' => Ascii.eqb d c || contains c s'
  end.

(** The header is [Bearer <token>]: the scheme, one space, and a token
    without a space. *)
Definition bearer_shape (h token : string) : Prop :=
  h = ("Bearer " +:+ token)%string /\ contains " " token = false.

(** A field that is absent ([undefined] or [null]) or the empty string. *)
Definition absent_or_empty (v : JsValue) : Prop :=
  nullish v = true \/ v = JString "".

(** A number that is not below zero: zero, a positive number or [NaN]. *)
Definition nonneg (b : float) : Prop := (b <? 0)%float = false.

(** No account of the database has a negative balance. *)
Definition balances_nonneg (db : gmap string User) : Prop :=
  forall k u, db !! k = Some u -> nonneg (balance u).

Definition is_withdraw (r : Request * Z) : Prop :=
  match fst r with
  | PostWithdraw _ _ => True
  | _ => False
  end.

(** The same on the specification of doubles. *)
Definition SFnonneg (x : spec_float) : Prop := SFltb x (S754_zero false) = false.

(** The value of a field of a response body, [FUndefined] when it has none. *)
Definition field (name : string) (r : Response) : Field :=
  match find (fun kv => (fst kv =? name)%string) (body r) with
  | Some kv => snd kv
  | None => FUndefined
  end.

(** The balance of an account, when it exists. *)
Definition balance_of (key : string) (db : gmap string User) : option float :=
  balance <$> db !! key.

(** The specification's reading of amount validation: an amount that is
    not parseable as a finite number fails with [InvalidAmount]. *)
Definition spec_amount_validation : Prop :=
  forall user amount db u,
    db !! property_key (jwt.username user) = Some u ->
    nullish amount = false ->
    is_finite (parseFloat amount) = false ->
    post_deposit user amount db = (InvalidAmount, db)
    /\ post_withdraw user amount db = (InvalidAmount, db).

(** The specification's round trip: a successful credit followed by a
    successful debit of the same positive amount restores the balance. *)
Definition spec_round_trip : Prop :=
  forall user amount db u,
    db !! property_key (jwt.username user) = Some u ->
    (0 <? parseFloat amount)%float = true ->
    let credit := post_deposit user amount db in
    let debit := post_withdraw user amount (snd credit) in
    status (fst credit) = 200 -> status (fst debit) = 200 ->
    balance_of (property_key (jwt.username user)) (snd debit) = Some (balance u).

(** The specification's order of the gate's checks: an absent header gives
    [NoToken]; any other header that is not [Bearer <token>] gives
    [MalformedHeader]. *)
Definition spec_gate_order : Prop :=
  forall mac decode secret (header : option string) (now : Z),
    (header = None -> authMiddleware mac decode secret header now = Respond NoToken)
    /\ (forall h, header = Some h -> ~ (exists token, bearer_shape h token) ->
          authMiddleware mac decode secret header now = Respond MalformedHeader).

(** The accounts of the database are those of [userDatabase]. *)
Definition only_john (db : gmap string User) : Prop :=
  forall k, is_Some (db !! k) -> k = "john_doe"%string.

(** A number from zero up that is not infinite: [0 <= b && b < Infinity]. *)
Definition in_range (b : float) : bool := (0 <=? b)%float && (b <? infinity)%float.

(** The same on the specification of doubles. *)
Definition SFin_range (x : spec_float) : bool :=
  SFleb (S754_zero false) x && SFltb x (S754_infinity false).

(** Every balance of the database is a number from zero up. *)
Definition balances_in_range (db : gmap string User) : Prop :=
  forall k u, db !! k = Some u -> in_range (balance u) = true.

(** The double of a whole number: [n] rounded to nearest, as a
    specification value and as a number. *)
Definition Z2SF (n : Z) : spec_float := binary_normalize prec emax n 0 false.

Definition whole (n : Z) : float := SF2Prim (Z2SF n).

(** The double of a positive whole number with at most 53 digits: the
    number shifted left to 53 digits. *)
Definition canon (n : positive) : spec_float :=
  let d := Z.pos (digits2_pos n) in
  S754_finite false (Pos.shiftl n (Z.to_N (53 - d))) (d - 53).

(** ** A token codec for the examples

    Three tokens are known to the parser: one signed for [john_doe] with
    the default secret, one with the same claims signed with another secret,
    and one signed with the default secret whose claims have no identity.
    The MAC is symbolic: the tag names the key. *)

Module Sample.

Definition mac (key : string) (p : jwt.Payload) : string := key.

Definition john : jwt.Payload :=
  {| jwt.username := Some "john_doe"%string; jwt.iat := 0; jwt.exp := 86400 |}.

Definition anonymous : jwt.Payload :=
  {| jwt.username := None; jwt.iat := 0; jwt.exp := 86400 |}.

Definition mallory : jwt.Payload :=
  {| jwt.username := Some "mallory"%string; jwt.iat := 0; jwt.exp := 86400 |}.

Definition signed (key : string) (p : jwt.Payload) : jwt.Jws :=
  {| jwt.payload := p; jwt.signature := mac key p |}.

Definition decode (token : string) : option jwt.Jws :=
  if (token =? "john.valid")%string then Some (signed default_JWT_SECRET john)
  else if (token =? "john.forged")%string then Some (signed "another-secret" john)
  else if (token =? "anonymous.valid")%string then Some (signed default_JWT_SECRET anonymous)
  else None.

Definition encode (j : jwt.Jws) : string :=
  match jwt.username (jwt.payload j) with
  | Some _ =>
      if (jwt.signature j =? default_JWT_SECRET)%string then "john.valid" else "john.forged"
  | None => "anonymous.valid"
  end.

Definition authMiddleware := authMiddleware mac decode default_JWT_SECRET.
Definition post_login := post_login mac encode default_JWT_SECRET default_JWT_EXPIRES_IN.
Definition app := app mac encode decode default_JWT_SECRET default_JWT_EXPIRES_IN.
Definition run := run mac encode decode default_JWT_SECRET default_JWT_EXPIRES_IN.

End Sample.

(** ** The middleware over any verification function *)

(** The [catch (verifyError)] block of [authMiddleware]. *)
Definition catch_verify (verifyError : jwt.Error) : Response :=
  if (jwt.name verifyError =? "TokenExpiredError")%string
  then TokenExpired (jwt.expiredAt verifyError)
  else if (jwt.name verifyError =? "JsonWebTokenError")%string
  then InvalidToken
  else VerificationFailed (jwt.message verifyError).

(** [authMiddleware] with the call [jwt.verify(token, JWT_SECRET)] as a
    parameter: what the middleware does whatever the library answers. *)
Definition authMiddleware_with (verify : string -> jwt.Result)
    (authHeader : option string) : Outcome :=
  match authHeader with
  | None => Respond NoToken
  | Some h =>
      if negb (truthy (JString h)) then Respond NoToken else
      let parts := split " " h in
      if negb (length parts =? 2)%nat || negb (nth 0 parts "" =? "Bearer")%string
      then Respond MalformedHeader
      else match verify (nth 1 parts "") with
           | jwt.Decoded decoded => Next decoded
           | jwt.Throw verifyError => Respond (catch_verify verifyError)
           end
  end.

(** ** A ledger of whole numbers

    Credits and debits of whole amounts, on a balance that is an integer:
    what the handlers are compared with when the numbers are whole. *)

Inductive Op :=
| Credit (m : Z)
| Debit (m : Z).

Definition amount_of (op : Op) : Z :=
  match op with
  | Credit m | Debit m => m
  end.

(** A debit above the balance is refused. *)
Definition ledger_step (n : Z) (op : Op) : Z :=
  match op with
  | Credit m => n + m
  | Debit m => if n <? m then n else n - m
  end.

Definition ledger_Z (ops : list Op) (n : Z) : Z := fold_left ledger_step ops n.

(** The sum of the credits. *)
Definition credits (ops : list Op) : Z :=
  fold_right (fun op acc => match op with Credit m => m + acc | Debit _ => acc end) 0 ops.

(** The database after the handler of the operation, for the identity
    [user] and the amount as a JSON number. *)
Definition perform (user : jwt.Payload) (db : gmap string User) (op : Op)
    : gmap string User :=
  match op with
  | Credit m => snd (post_deposit user (JNumber (whole m)) db)
  | Debit m => snd (post_withdraw user (JNumber (whole m)) db)
  end.

Definition perform_all (user : jwt.Payload) (ops : list Op) (db : gmap string User)
    : gmap string User :=
  fold_left (perform user) ops db.

(** What a request that changes the database carries: a deposit or a
    withdrawal with a token that parses, is signed with the secret and is
    not expired, for an identity that has an account, and an amount above
    zero. *)
Definition authorised_change (mac : string -> jwt.Payload -> string)
    (decode : string -> option jwt.Jws) (secret : string)
    (req : Request) (now : Z) (db : gmap string User) : Prop :=
  exists token j amount u,
    (req = PostDeposit (Some ("Bearer " +:+ token)%string) amount
     \/ req = PostWithdraw (Some ("Bearer " +:+ token)%string) amount)
    /\ decode token = Some j
    /\ jwt.signature j = mac secret (jwt.payload j)
    /\ now < jwt.exp (jwt.payload j)
    /\ db !! property_key (jwt.username (jwt.payload j)) = Some u
    /\ nullish amount = false
    /\ (0 <? parseFloat amount)%float = true.

(** * Properties *)

(** ** Doubles

    The sign and the range of a difference and of a sum, and the exact sums
    and differences of whole numbers, from the specification of the
    operations in [SpecFloat]. *)

Section Doubles.

Lemma digits2_pos_bounds (p : positive) :
  2 ^ (Z.pos (digits2_pos p) - 1) <= Z.pos p < 2 ^ Z.pos (digits2_pos p).
Proof.
  induction p as [p IH|p IH|]; simpl digits2_pos.
  - rewrite Pos2Z.inj_succ, Z.pow_succ_r by lia.
    replace (Z.succ (Z.pos (digits2_pos p)) - 1)
      with (Z.succ (Z.pos (digits2_pos p) - 1)) by lia.
    rewrite Z.pow_succ_r by lia. lia.
  - rewrite Pos2Z.inj_succ, Z.pow_succ_r by lia.
    replace (Z.succ (Z.pos (digits2_pos p)) - 1)
      with (Z.succ (Z.pos (digits2_pos p) - 1)) by lia.
    rewrite Z.pow_succ_r by lia. lia.
  - simpl. lia.
Qed.

Lemma iter_xO_pow (m d : positive) : Z.pos (Pos.iter xO m d) = Z.pos m * 2 ^ Z.pos d.
Proof.
  induction d as [|d IH] using Pos.peano_ind.
  - simpl. lia.
  - rewrite Pos.iter_succ, Pos2Z.inj_succ, Z.pow_succ_r by lia.
    rewrite Pos2Z.inj_xO, IH. lia.
Qed.

(** Aligning a mantissa on a smaller exponent multiplies it by a power of
    two. *)
Lemma shl_align_value (m : positive) (e e' : Z) :
  e' <= e -> Z.pos (fst (shl_align m e e')) = Z.pos m * 2 ^ (e - e').
Proof.
  intros H. unfold shl_align.
  destruct (e' - e) as [|d|d] eqn:E; simpl fst.
  - replace (e - e') with 0 by lia. lia.
  - lia.
  - rewrite iter_xO_pow. f_equal. f_equal. lia.
Qed.

(** A valid finite double has at most 53 digits, and exactly 53 above the
    smallest exponent. *)
Lemma valid_finite_digits (s : bool) (m : positive) (e : Z) :
  valid_binary (S754_finite s m e) = true ->
  Z.pos (digits2_pos m) <= 53
  /\ (-1074 < e -> Z.pos (digits2_pos m) = 53)
  /\ -1074 <= e <= 971.
Proof.
  unfold SpecFloat.valid_binary, bounded, canonical_mantissa, fexp,
    SpecFloat.emin, prec, emax.
  intros H. apply andb_prop in H as [H H']. apply Z.eqb_eq in H.
  apply Z.leb_le in H'. lia.
Qed.

(** Rounding keeps the sign. *)
Lemma binary_round_aux_sign (sx : bool) (m e : Z) (l : location) :
  SFltb (binary_round_aux prec emax false m e l) (S754_zero sx) = false.
Proof.
  unfold binary_round_aux.
  destruct (shr_fexp prec emax m e l) as [mrs' e'].
  destruct (shr_fexp prec emax _ e' loc_Exact) as [mrs'' e''].
  destruct (shr_m mrs''); [reflexivity| |reflexivity].
  destruct (e'' <=? emax - prec); reflexivity.
Qed.

Lemma binary_normalize_sign (m e : Z) (sx : bool) :
  0 <= m -> SFltb (binary_normalize prec emax m e false) (S754_zero sx) = false.
Proof.
  intros H. destruct m as [|p|p]; [reflexivity| |lia].
  unfold binary_normalize, binary_round.
  destruct (shl_align p e _) as [mz ez]. apply binary_round_aux_sign.
Qed.

(** Two valid positive doubles, the first not below the second: aligned on
    the smaller exponent, the first mantissa is not below the second. *)
Lemma aligned_mantissas_le (mx my : positive) (ex ey : Z) :
  valid_binary (S754_finite false mx ex) = true ->
  valid_binary (S754_finite false my ey) = true ->
  SFltb (S754_finite false mx ex) (S754_finite false my ey) = false ->
  Z.pos (fst (shl_align my ey (Z.min ex ey)))
  <= Z.pos (fst (shl_align mx ex (Z.min ex ey))).
Proof.
  intros Vx Vy Hlt.
  apply valid_finite_digits in Vx as (Dx & Nx & Ex).
  apply valid_finite_digits in Vy as (Dy & Ny & Ey).
  pose proof (digits2_pos_bounds mx) as Bx.
  pose proof (digits2_pos_bounds my) as By.
  rewrite !shl_align_value by lia.
  unfold SFltb, SFcompare in Hlt.
  destruct (ex ?= ey) eqn:C.
  - apply Z.compare_eq in C. subst ey. rewrite Z.min_id, Z.sub_diag, !Z.mul_1_r.
    change (Pos.compare_cont Eq mx my) with (mx ?= my)%positive in Hlt.
    destruct (mx ?= my)%positive eqn:Cm; try discriminate.
    + apply Pos.compare_eq in Cm. subst. lia.
    + apply Pos.compare_gt_iff in Cm. lia.
  - discriminate.
  - apply Z.compare_gt_iff in C.
    rewrite Z.min_r by lia. rewrite Z.sub_diag, Z.mul_1_r.
    rewrite Nx in Bx by lia.
    assert (H1 : 2 ^ 1 <= 2 ^ (ex - ey)) by (apply Z.pow_le_mono_r; lia).
    assert (H2 : Z.pos my < 2 ^ 53).
    { eapply Z.lt_le_trans; [apply By|]. apply Z.pow_le_mono_r; lia. }
    change (2 ^ (53 - 1)) with 4503599627370496 in Bx.
    change (2 ^ 53) with 9007199254740992 in H2.
    change (2 ^ 1) with 2 in H1. nia.
Qed.

Lemma SFsub_nonneg (x y : spec_float) :
  valid_binary x = true -> valid_binary y = true ->
  SFnonneg x ->
  SFeqb y y = true -> SFleb y (S754_zero false) = false ->
  SFltb x y = false ->
  SFnonneg (SF64sub x y).
Proof.
  unfold SFnonneg, SF64sub.
  intros Vx Vy Hx Hy Hpos Hlt.
  destruct x as [sx|sx| |sx mx ex], y as [sy|sy| |sy my ey];
    try discriminate; try reflexivity;
    try (destruct sx; discriminate); try (destruct sy; discriminate);
    try (destruct sx, sy; (discriminate || reflexivity)).
  destruct sx; [discriminate|]. destruct sy; [discriminate|].
  unfold SFsub, cond_Zopp.
  apply binary_normalize_sign.
  pose proof (aligned_mantissas_le mx my ex ey Vx Vy Hlt). lia.
Qed.

Lemma SFadd_nonneg (x y : spec_float) :
  SFnonneg x ->
  SFeqb y y = true -> SFleb y (S754_zero false) = false ->
  SFnonneg (SF64add x y).
Proof.
  unfold SFnonneg, SF64add.
  intros Hx Hy Hpos.
  destruct x as [sx|sx| |sx mx ex], y as [sy|sy| |sy my ey];
    try discriminate; try reflexivity;
    try (destruct sx; discriminate); try (destruct sy; discriminate);
    try (destruct sx, sy; (discriminate || reflexivity)).
  destruct sx; [discriminate|]. destruct sy; [discriminate|].
  unfold SFadd, cond_Zopp.
  apply binary_normalize_sign. lia.
Qed.

Lemma SFeqb_finite_refl (s : bool) (m : positive) (e : Z) :
  SFeqb (S754_finite s m e) (S754_finite s m e) = true.
Proof.
  unfold SFeqb, SFcompare. rewrite Z.compare_refl.
  change (Pos.compare_cont Eq m m) with (m ?= m)%positive.
  rewrite Pos.compare_refl. now destruct s.
Qed.

(** An amount above a balance that is not negative is a positive number. *)
Lemma SFltb_nonneg_positive (x y : spec_float) :
  SFnonneg x -> SFltb x y = true ->
  SFeqb y y = true /\ SFleb y (S754_zero false) = false.
Proof.
  unfold SFnonneg. intros Hx Hlt.
  destruct x as [sx|sx| |sx mx ex], y as [sy|sy| |sy my ey];
    try discriminate;
    try (destruct sx; discriminate);
    try (destruct sy; (discriminate || (split; reflexivity)));
    try (destruct sx, sy; (discriminate || (split; reflexivity))).
  - destruct sy; [destruct sx; discriminate|].
    split; [apply SFeqb_finite_refl | reflexivity].
  - destruct sx; [discriminate|]. destruct sy; [discriminate|].
    split; [apply SFeqb_finite_refl | reflexivity].
Qed.

Lemma Prim2SF_zero : Prim2SF 0%float = S754_zero false.
Proof. reflexivity. Qed.

Lemma sub_nonneg (b a : float) :
  nonneg b -> is_nan a = false -> (a <=? 0)%float = false -> (b <? a)%float = false ->
  nonneg (b - a)%float.
Proof.
  unfold nonneg, is_nan. intros Hb Hn Hpos Hlt.
  apply negb_false_iff in Hn.
  rewrite FloatAxioms.ltb_spec in Hb, Hlt. rewrite FloatAxioms.leb_spec in Hpos.
  rewrite FloatAxioms.eqb_spec in Hn. rewrite Prim2SF_zero in *.
  rewrite FloatAxioms.ltb_spec, sub_spec, Prim2SF_zero.
  apply SFsub_nonneg; auto using Prim2SF_valid.
Qed.

Lemma add_nonneg (b a : float) :
  nonneg b -> is_nan a = false -> (a <=? 0)%float = false ->
  nonneg (b + a)%float.
Proof.
  unfold nonneg, is_nan. intros Hb Hn Hpos.
  apply negb_false_iff in Hn.
  rewrite FloatAxioms.ltb_spec in Hb. rewrite FloatAxioms.leb_spec in Hpos.
  rewrite FloatAxioms.eqb_spec in Hn. rewrite Prim2SF_zero in *.
  rewrite FloatAxioms.ltb_spec, add_spec, Prim2SF_zero.
  apply SFadd_nonneg; auto.
Qed.

Lemma ltb_nonneg_positive (b a : float) :
  nonneg b -> (b <? a)%float = true ->
  is_nan a = false /\ (a <=? 0)%float = false.
Proof.
  unfold nonneg, is_nan. intros Hb Hlt.
  rewrite FloatAxioms.ltb_spec in Hb, Hlt. rewrite Prim2SF_zero in Hb.
  rewrite FloatAxioms.leb_spec, FloatAxioms.eqb_spec, Prim2SF_zero.
  destruct (SFltb_nonneg_positive _ _ Hb Hlt) as [-> ->]. split; reflexivity.
Qed.

(** The digits of a positive number are determined by the powers of two
    around it. *)
Lemma digits2_pos_unique (p : positive) (d : Z) :
  2 ^ (d - 1) <= Z.pos p < 2 ^ d -> Z.pos (digits2_pos p) = d.
Proof.
  intros [Hl Hu]. pose proof (digits2_pos_bounds p) as [Bl Bu].
  assert (0 < d).
  { destruct (Z.ltb_spec 0 d); [assumption|].
    destruct (Z.eq_dec d 0) as [->|Hd]; [simpl in Hu; lia|].
    rewrite Z.pow_neg_r in Hu by lia. lia. }
  destruct (Z.lt_trichotomy (Z.pos (digits2_pos p)) d) as [L|[E|G]]; [|exact E|].
  - assert (2 ^ Z.pos (digits2_pos p) <= 2 ^ (d - 1)) by (apply Z.pow_le_mono_r; lia). lia.
  - assert (2 ^ d <= 2 ^ (Z.pos (digits2_pos p) - 1)) by (apply Z.pow_le_mono_r; lia). lia.
Qed.

Lemma digits2_pos_shift (p q : positive) (j : Z) :
  0 <= j -> Z.pos q = Z.pos p * 2 ^ j ->
  Z.pos (digits2_pos q) = Z.pos (digits2_pos p) + j.
Proof.
  intros Hj Hq. apply digits2_pos_unique. rewrite Hq.
  pose proof (digits2_pos_bounds p) as [Bl Bu].
  replace (Z.pos (digits2_pos p) + j - 1) with ((Z.pos (digits2_pos p) - 1) + j) by lia.
  rewrite !Z.pow_add_r by lia.
  assert (0 < 2 ^ j) by (apply Z.pow_pos_nonneg; lia). nia.
Qed.

Lemma digits2_pos_mono (p q : positive) :
  Z.pos p <= Z.pos q -> Z.pos (digits2_pos p) <= Z.pos (digits2_pos q).
Proof.
  intros H. pose proof (digits2_pos_bounds p) as [Bl _].
  pose proof (digits2_pos_bounds q) as [_ Bu].
  destruct (Z.le_gt_cases (Z.pos (digits2_pos p)) (Z.pos (digits2_pos q))) as [L|G]; [exact L|].
  assert (2 ^ Z.pos (digits2_pos q) <= 2 ^ (Z.pos (digits2_pos p) - 1))
    by (apply Z.pow_le_mono_r; lia). lia.
Qed.

(** [iter_pos] of [SpecFloat] is the iteration of [Pos]. *)
Lemma iter_pos_iter {A : Type} (f : A -> A) (n : positive) (x : A) :
  SpecFloat.iter_pos f n x = Pos.iter f x n.
Proof.
  revert x. induction n as [n IH|n IH|]; intros x; simpl.
  - rewrite !IH. now rewrite <- !Pos.iter_swap.
  - now rewrite !IH.
  - reflexivity.
Qed.

(** Shifting right the zeros a left shift added loses nothing. *)
Lemma shr_shifted (q k : positive) :
  SpecFloat.iter_pos shr_1 k {| shr_m := Z.pos (Pos.iter xO q k); shr_r := false; shr_s := false |}
  = {| shr_m := Z.pos q; shr_r := false; shr_s := false |}.
Proof.
  rewrite iter_pos_iter.
  induction k as [|k IH] using Pos.peano_ind.
  - reflexivity.
  - rewrite Pos.iter_succ_r. rewrite Pos.iter_succ. simpl shr_1. exact IH.
Qed.

Lemma shiftl_value (n : positive) (k : Z) :
  0 <= k -> Z.pos (Pos.shiftl n (Z.to_N k)) = Z.pos n * 2 ^ k.
Proof.
  intros Hk. destruct k as [|k|k]; cbv [Z.to_N Pos.shiftl]; [|apply iter_xO_pow|lia].
  rewrite Z.pow_0_r. lia.
Qed.

(** Rounding a mantissa that is a 53-digit number followed by [k] zeros
    removes the zeros. *)
Lemma binary_round_aux_shifted (s : bool) (M P : positive) (k E : Z) :
  0 <= k -> Z.pos (digits2_pos M) = 53 -> -1074 <= E <= 971 ->
  Z.pos P = Z.pos M * 2 ^ k ->
  binary_round_aux prec emax s (Z.pos P) (E - k) loc_Exact = S754_finite s M E.
Proof.
  intros Hk HM HE HP.
  assert (Hfexp : fexp prec emax (53 + E) = E)
    by (unfold fexp, SpecFloat.emin, prec, emax; lia).
  assert (Hcanon : shr_fexp prec emax (Z.pos M) E loc_Exact
                   = ({| shr_m := Z.pos M; shr_r := false; shr_s := false |}, E)).
  { unfold shr_fexp. simpl Zdigits2. rewrite HM, Hfexp, Z.sub_diag. reflexivity. }
  assert (Hshr : shr_fexp prec emax (Z.pos P) (E - k) loc_Exact
                 = ({| shr_m := Z.pos M; shr_r := false; shr_s := false |}, E)).
  { unfold shr_fexp. simpl Zdigits2.
    rewrite (digits2_pos_shift M P k Hk HP), HM.
    replace (53 + k + (E - k)) with (53 + E) by lia. rewrite Hfexp.
    replace (E - (E - k)) with k by lia.
    destruct k as [|k|k]; [| |lia].
    - rewrite Z.mul_1_r in HP. injection HP as ->. rewrite Z.sub_0_r. reflexivity.
    - rewrite <- iter_xO_pow in HP. injection HP as ->.
      unfold shr, shr_record_of_loc. rewrite shr_shifted. f_equal. lia. }
  unfold binary_round_aux. rewrite Hshr. simpl shr_m. simpl loc_of_shr_record.
  simpl round_nearest_even. rewrite Hcanon. simpl shr_m.
  replace (E <=? emax - prec) with true; [reflexivity|].
  symmetry. apply Z.leb_le. unfold emax, prec. lia.
Qed.

(** Rounding a whole number of at most 53 digits, scaled by a power of
    two and given with the opposite exponent, is exact. *)
Lemma binary_round_whole (N P : positive) (j : Z) :
  0 <= j -> Z.pos P = Z.pos N * 2 ^ j -> Z.pos (digits2_pos N) <= 53 ->
  binary_round prec emax false P (- j) = canon N.
Proof.
  intros Hj HP HN. unfold binary_round, canon.
  set (d := Z.pos (digits2_pos N)) in *.
  assert (Hd : 1 <= d) by (unfold d; lia).
  rewrite (digits2_pos_shift N P j Hj HP). fold d.
  replace (d + j + - j) with d by lia.
  assert (Hfexp : fexp prec emax d = d - 53)
    by (unfold fexp, SpecFloat.emin, prec, emax; lia).
  rewrite Hfexp.
  set (M := Pos.shiftl N (Z.to_N (53 - d))).
  assert (HMv : Z.pos M = Z.pos N * 2 ^ (53 - d)) by (apply shiftl_value; lia).
  assert (HMd : Z.pos (digits2_pos M) = 53).
  { rewrite (digits2_pos_shift N M (53 - d)); [fold d; lia|lia|exact HMv]. }
  unfold shl_align.
  destruct (d - 53 - - j) as [|k|k] eqn:Hk.
  - replace (- j) with (d - 53 - 0) by lia.
    apply binary_round_aux_shifted; [lia|exact HMd|lia|].
    rewrite HP, HMv. replace j with (53 - d) by lia. lia.
  - replace (- j) with (d - 53 - Z.pos k) by lia.
    apply binary_round_aux_shifted; [lia|exact HMd|lia|].
    rewrite HP, HMv, <- Z.mul_assoc, <- Z.pow_add_r by lia. do 2 f_equal. lia.
  - replace (d - 53) with (d - 53 - 0) at 1 by lia.
    apply binary_round_aux_shifted; [lia|exact HMd|lia|].
    rewrite iter_xO_pow, HP, HMv, <- Z.mul_assoc, <- Z.pow_add_r by lia.
    rewrite Z.mul_1_r. do 2 f_equal. lia.
Qed.

Lemma digits_le_53 (n : positive) : Z.pos n < 2 ^ 53 -> Z.pos (digits2_pos n) <= 53.
Proof.
  intros H. pose proof (digits2_pos_bounds n) as [Bl _].
  destruct (Z.le_gt_cases (Z.pos (digits2_pos n)) 53) as [L|G]; [exact L|].
  assert (2 ^ 53 <= 2 ^ (Z.pos (digits2_pos n) - 1)) by (apply Z.pow_le_mono_r; lia). lia.
Qed.

Lemma Z2SF_pos (n : positive) : Z.pos n < 2 ^ 53 -> Z2SF (Z.pos n) = canon n.
Proof.
  intros H. unfold Z2SF, binary_normalize.
  apply (binary_round_whole n n 0); [lia|lia|now apply digits_le_53].
Qed.

Lemma canon_valid (n : positive) : Z.pos n < 2 ^ 53 -> valid_binary (canon n) = true.
Proof.
  intros H. apply digits_le_53 in H. unfold canon.
  set (d := Z.pos (digits2_pos n)) in *.
  assert (Hd : 1 <= d) by (unfold d; lia).
  unfold SpecFloat.valid_binary, bounded, canonical_mantissa.
  rewrite (digits2_pos_shift n _ (53 - d)); [|lia|apply shiftl_value; lia]. fold d.
  apply andb_true_intro. split.
  - apply Z.eqb_eq. unfold fexp, SpecFloat.emin, prec, emax. lia.
  - apply Z.leb_le. unfold prec, emax. lia.
Qed.

Lemma Z2SF_valid (n : Z) : 0 <= n < 2 ^ 53 -> valid_binary (Z2SF n) = true.
Proof.
  intros [H0 H]. destruct n as [|n|n]; [reflexivity| |lia].
  rewrite Z2SF_pos by exact H. now apply canon_valid.
Qed.

(** The mantissa of [canon n] aligned on a smaller exponent. *)
Lemma canon_aligned (n : positive) (ez : Z) :
  Z.pos n < 2 ^ 53 -> ez <= Z.pos (digits2_pos n) - 53 ->
  Z.pos (fst (shl_align (Pos.shiftl n (Z.to_N (53 - Z.pos (digits2_pos n))))
                (Z.pos (digits2_pos n) - 53) ez))
  = Z.pos n * 2 ^ (- ez).
Proof.
  intros H Hez. apply digits_le_53 in H.
  rewrite shl_align_value by exact Hez.
  rewrite shiftl_value by lia.
  rewrite <- Z.mul_assoc, <- Z.pow_add_r by lia. do 2 f_equal. lia.
Qed.

Lemma SFadd_canon (n m : positive) :
  Z.pos n + Z.pos m < 2 ^ 53 ->
  SF64add (canon n) (canon m) = canon (n + m).
Proof.
  intros H. unfold SF64add, canon at 1 2, SFadd, cond_Zopp.
  set (ez := Z.min _ _).
  assert (Hn : Z.pos (digits2_pos n) <= 53) by (apply digits_le_53; lia).
  assert (Hm : Z.pos (digits2_pos m) <= 53) by (apply digits_le_53; lia).
  assert (Hez : ez <= 0) by (unfold ez; lia).
  pose proof (canon_aligned n ez ltac:(lia) ltac:(unfold ez; lia)) as An.
  pose proof (canon_aligned m ez ltac:(lia) ltac:(unfold ez; lia)) as Am.
  rewrite <- Pos2Z.inj_add. unfold binary_normalize.
  replace ez with (- - ez) at 3 by lia.
  apply binary_round_whole; [lia| |apply digits_le_53; lia].
  rewrite !Pos2Z.inj_add, An, Am. lia.
Qed.

Lemma SFsub_canon (n m : positive) :
  Z.pos n + Z.pos m < 2 ^ 53 ->
  SF64sub (canon (n + m)) (canon m) = canon n.
Proof.
  intros H. unfold SF64sub, canon at 1 2, SFsub, cond_Zopp.
  set (ez := Z.min _ _).
  assert (Hn : Z.pos (digits2_pos (n + m)) <= 53) by (apply digits_le_53; lia).
  assert (Hm : Z.pos (digits2_pos m) <= 53) by (apply digits_le_53; lia).
  assert (Hez : ez <= 0) by (unfold ez; lia).
  pose proof (canon_aligned (n + m) ez ltac:(lia) ltac:(unfold ez; lia)) as An.
  pose proof (canon_aligned m ez ltac:(lia) ltac:(unfold ez; lia)) as Am.
  assert (Hp : 0 < 2 ^ (- ez)) by (apply Z.pow_pos_nonneg; lia).
  destruct (Z.pos (fst _) - Z.pos (fst _)) as [|p|p] eqn:Hd;
    rewrite An, Am, Pos2Z.inj_add in Hd; try nia.
  unfold binary_normalize.
  replace ez with (- - ez) at 1 by lia.
  apply binary_round_whole; [lia|lia|apply digits_le_53; lia].
Qed.

Lemma SFsub_canon_self (m : positive) :
  SF64sub (canon m) (canon m) = S754_zero false.
Proof.
  unfold SF64sub, canon, SFsub, cond_Zopp. now rewrite Z.sub_diag.
Qed.

Lemma SFltb_canon (n m : positive) :
  Z.pos m <= Z.pos n < 2 ^ 53 ->
  SFltb (canon n) (canon m) = false.
Proof.
  intros [Hle H]. pose proof (digits2_pos_mono m n Hle) as Hd.
  assert (Hn : Z.pos (digits2_pos n) <= 53) by (apply digits_le_53; lia).
  unfold SFltb, canon, SFcompare.
  destruct (Z.pos (digits2_pos n) - 53 ?= Z.pos (digits2_pos m) - 53) eqn:C.
  - apply Z.compare_eq in C.
    change (Pos.compare_cont Eq ?a ?b) with (a ?= b)%positive.
    destruct (_ ?= _)%positive eqn:Cm; try reflexivity.
    apply Pos.compare_lt_iff in Cm. apply Pos2Z.pos_lt_pos in Cm.
    rewrite !shiftl_value in Cm by lia.
    replace (Z.pos (digits2_pos m)) with (Z.pos (digits2_pos n)) in Cm by lia.
    assert (0 < 2 ^ (53 - Z.pos (digits2_pos n))) by (apply Z.pow_pos_nonneg; lia). nia.
  - rewrite Z.compare_lt_iff in C. lia.
  - reflexivity.
Qed.

(** Whole numbers up to 2^53 add and subtract exactly. *)
Lemma SFadd_whole (n m : Z) :
  0 <= n -> 0 < m -> n + m < 2 ^ 53 -> SF64add (Z2SF n) (Z2SF m) = Z2SF (n + m).
Proof.
  intros Hn Hm H. destruct m as [|m|m]; try lia.
  destruct n as [|n|n]; try lia.
  - rewrite Z.add_0_l. rewrite Z2SF_pos by lia. reflexivity.
  - rewrite <- Pos2Z.inj_add. rewrite !Z2SF_pos by lia. apply SFadd_canon. lia.
Qed.

Lemma SFsub_whole (n m : Z) :
  0 <= n -> 0 < m -> n + m < 2 ^ 53 -> SF64sub (Z2SF (n + m)) (Z2SF m) = Z2SF n.
Proof.
  intros Hn Hm H. destruct m as [|m|m]; try lia.
  destruct n as [|n|n]; try lia.
  - rewrite Z.add_0_l. rewrite Z2SF_pos by lia. apply SFsub_canon_self.
  - rewrite <- Pos2Z.inj_add. rewrite !Z2SF_pos by lia. apply SFsub_canon. lia.
Qed.

Lemma SFltb_whole (n m : Z) :
  0 < m -> m <= n < 2 ^ 53 -> SFltb (Z2SF n) (Z2SF m) = false.
Proof.
  intros Hm H. destruct m as [|m|m]; try lia. destruct n as [|n|n]; try lia.
  rewrite !Z2SF_pos by lia. apply SFltb_canon. lia.
Qed.

Lemma Z2SF_positive (m : Z) :
  0 < m < 2 ^ 53 ->
  SFeqb (Z2SF m) (Z2SF m) = true /\ SFleb (Z2SF m) (S754_zero false) = false.
Proof.
  intros H. destruct m as [|m|m]; try lia. rewrite Z2SF_pos by lia.
  split; [apply SFeqb_finite_refl | reflexivity].
Qed.

Lemma Prim2SF_whole (n : Z) : 0 <= n < 2 ^ 53 -> Prim2SF (whole n) = Z2SF n.
Proof. intros H. unfold whole. apply Prim2SF_SF2Prim, Z2SF_valid, H. Qed.

Lemma add_whole (n m : Z) :
  0 <= n -> 0 < m -> n + m < 2 ^ 53 -> (whole n + whole m)%float = whole (n + m).
Proof.
  intros Hn Hm H. apply Prim2SF_inj.
  rewrite add_spec, !Prim2SF_whole by lia. now apply SFadd_whole.
Qed.

Lemma sub_whole (n m : Z) :
  0 <= n -> 0 < m -> n + m < 2 ^ 53 -> (whole (n + m) - whole m)%float = whole n.
Proof.
  intros Hn Hm H. apply Prim2SF_inj.
  rewrite sub_spec, !Prim2SF_whole by lia. now apply SFsub_whole.
Qed.

Lemma ltb_whole (n m : Z) :
  0 < m -> m <= n < 2 ^ 53 -> (whole n <? whole m)%float = false.
Proof.
  intros Hm H. rewrite FloatAxioms.ltb_spec, !Prim2SF_whole by lia.
  now apply SFltb_whole.
Qed.

Lemma whole_positive (m : Z) :
  0 < m < 2 ^ 53 -> is_nan (whole m) = false /\ (whole m <=? 0)%float = false.
Proof.
  intros H. unfold is_nan.
  rewrite FloatAxioms.leb_spec, FloatAxioms.eqb_spec, Prim2SF_zero, Prim2SF_whole by lia.
  destruct (Z2SF_positive m H) as [-> ->]. split; reflexivity.
Qed.

(** *** Differences stay in range *)

(** One step of [shr]: the mantissa is halved, the bit that falls off is
    kept, and what fell off before stays sticky. *)
Lemma shr_1_spec (m : Z) (r s : bool) :
  0 <= m ->
  exists m' r', shr_1 {| shr_m := m; shr_r := r; shr_s := s |}
                = {| shr_m := m'; shr_r := r'; shr_s := r || s |}
                /\ m = 2 * m' + Z.b2z r' /\ 0 <= m'.
Proof.
  intros Hm. destruct m as [|[p|p|]|p]; try lia; simpl.
  - exists 0, false. repeat split; lia.
  - exists (Z.pos p), true. repeat split; simpl; lia.
  - exists (Z.pos p), false. repeat split; simpl; lia.
  - exists 0, true. repeat split; simpl; lia.
Qed.

(** [k] steps divide the mantissa by [2 ^ k]; when nothing is lost the
    location is exact. *)
Lemma shr_iter_spec (mz : Z) (k : positive) :
  0 <= mz ->
  exists m r s,
    Pos.iter shr_1 {| shr_m := mz; shr_r := false; shr_s := false |} k
    = {| shr_m := m; shr_r := r; shr_s := s |}
    /\ 0 <= m
    /\ m * 2 ^ Z.pos k <= mz < (m + 1) * 2 ^ Z.pos k
    /\ (mz = m * 2 ^ Z.pos k -> r = false /\ s = false).
Proof.
  intros Hz. induction k as [|k IH] using Pos.peano_ind.
  - destruct (shr_1_spec mz false false Hz) as (m' & r' & E & Hv & Hm').
    exists m', r', false. cbv [Pos.iter]. rewrite E. simpl orb.
    change (2 ^ 1) with 2. repeat split; try (destruct r'; simpl in Hv; lia).
  - destruct IH as (m & r & s & E & Hm & Hb & Hex).
    destruct (shr_1_spec m r s Hm) as (m' & r' & E' & Hv & Hm').
    exists m', r', (r || s). rewrite Pos.iter_succ, E, E'.
    rewrite Pos2Z.inj_succ, Z.pow_succ_r by lia.
    assert (Hp : 0 < 2 ^ Z.pos k) by (apply Z.pow_pos_nonneg; lia).
    split; [reflexivity|]. split; [exact Hm'|]. split.
    + destruct r'; simpl in Hv; nia.
    + intros Hmz.
      assert (r' = false) by (destruct r'; [simpl in Hv; nia|reflexivity]). subst r'.
      simpl in Hv. destruct Hex as [-> ->]; [nia|]. now split.
Qed.

Lemma round_nearest_even_spec (m : Z) (r s : bool) :
  let m2 := round_nearest_even m (loc_of_shr_record {| shr_m := m; shr_r := r; shr_s := s |}) in
  m2 = m \/ (m2 = m + 1 /\ (r = true \/ s = true)).
Proof.
  destruct r, s; simpl; try (destruct (Z.even m)); auto.
Qed.

Lemma Zdigits2_le_53 (m : Z) : 0 <= m < 2 ^ 53 -> Zdigits2 m <= 53.
Proof.
  intros [H0 H]. destruct m as [|p|p]; simpl; [lia| |lia]. now apply digits_le_53.
Qed.

(** Rounding does not overflow when the value is at most the largest
    double, and never gives [NaN]. *)
Lemma binary_round_aux_range (mz : positive) (e0 : Z) :
  let t := fexp prec emax (Z.pos (digits2_pos mz) + e0) in
  e0 <= t -> t <= 971 ->
  (t = 971 -> Z.pos mz <= (2 ^ 53 - 1) * 2 ^ (971 - e0)) ->
  SFin_range (binary_round_aux prec emax false (Z.pos mz) e0 loc_Exact) = true.
Proof.
  intros t He0 Ht Hmax.
  pose proof (digits2_pos_bounds mz) as [_ Bz].
  assert (Htd : Z.pos (digits2_pos mz) + e0 - 53 <= t /\ -1074 <= t).
  { unfold t, fexp, SpecFloat.emin, prec, emax. lia. }
  (* the first shift *)
  assert (S1 : exists m1 r s,
             shr_fexp prec emax (Z.pos mz) e0 loc_Exact
             = ({| shr_m := m1; shr_r := r; shr_s := s |}, t)
             /\ 0 <= m1 < 2 ^ 53
             /\ m1 * 2 ^ (t - e0) <= Z.pos mz
             /\ (Z.pos mz = m1 * 2 ^ (t - e0) -> r = false /\ s = false)).
  { unfold shr_fexp. simpl Zdigits2. fold t. unfold shr, shr_record_of_loc.
    destruct (t - e0) as [|k|k] eqn:Hk; try lia.
    - exists (Z.pos mz), false, false. replace t with e0 by lia.
      rewrite Z.mul_1_r. repeat split; try lia.
      eapply Z.lt_le_trans; [exact Bz|]. apply Z.pow_le_mono_r; lia.
    - rewrite iter_pos_iter.
      destruct (shr_iter_spec (Z.pos mz) k ltac:(lia)) as (m & r & s & E & Hm & Hb & Hex).
      exists m, r, s. rewrite E. replace (e0 + Z.pos k) with t by lia.
      repeat split; try lia; [|now apply Hex|now apply Hex].
      assert (Hp : 0 < 2 ^ Z.pos k) by (apply Z.pow_pos_nonneg; lia).
      assert (Hd : 2 ^ Z.pos (digits2_pos mz) <= 2 ^ 53 * 2 ^ Z.pos k).
      { rewrite <- Z.pow_add_r by lia. apply Z.pow_le_mono_r; lia. }
      nia. }
  destruct S1 as (m1 & r & s & E1 & Hm1 & Hle & Hex).
  unfold binary_round_aux. rewrite E1. simpl shr_m.
  pose proof (round_nearest_even_spec m1 r s) as Hr. simpl in Hr.
  set (m2 := round_nearest_even m1 _) in *.
  assert (Hcase : 0 <= m2 < 2 ^ 53 \/ (m2 = 2 ^ 53 /\ t < 971)).
  { destruct Hr as [->|[-> Hrs]]; [left; lia|].
    destruct (Z.eq_dec (m1 + 1) (2 ^ 53)) as [Hc|Hc]; [right|left; lia].
    split; [exact Hc|].
    destruct (Z.eq_dec t 971) as [Heq|]; [|lia]. exfalso.
    specialize (Hmax Heq). rewrite Heq in Hle, Hex.
    replace (2 ^ 53 - 1) with m1 in Hmax by lia.
    destruct Hex as [-> ->]; [lia|]. destruct Hrs; discriminate. }
  destruct Hcase as [Hm2|[Hm2 Ht']].
  - assert (E2 : shr_fexp prec emax m2 t loc_Exact
                 = ({| shr_m := m2; shr_r := false; shr_s := false |}, t)).
    { unfold shr_fexp, shr, shr_record_of_loc.
      pose proof (Zdigits2_le_53 m2 Hm2) as Hd2.
      destruct (fexp prec emax (Zdigits2 m2 + t) - t) as [|k|k] eqn:Hk; try reflexivity.
      unfold fexp, SpecFloat.emin, prec, emax in Hk. lia. }
    rewrite E2. simpl shr_m. destruct m2 as [|p|p]; [reflexivity| |lia].
    replace (t <=? emax - prec) with true; [reflexivity|].
    symmetry. apply Z.leb_le. unfold emax, prec. lia.
  - rewrite Hm2.
    assert (E2 : shr_fexp prec emax (2 ^ 53) t loc_Exact
                 = ({| shr_m := 2 ^ 52; shr_r := false; shr_s := false |}, t + 1)).
    { unfold shr_fexp. change (Zdigits2 (2 ^ 53)) with 54.
      replace (fexp prec emax (54 + t) - t) with 1
        by (unfold fexp, SpecFloat.emin, prec, emax; lia).
      reflexivity. }
    rewrite E2. simpl shr_m. change (2 ^ 52) with 4503599627370496.
    replace (t + 1 <=? emax - prec) with true; [reflexivity|].
    symmetry. apply Z.leb_le. unfold emax, prec. lia.
Qed.

Lemma binary_round_bounded (P mx : positive) (ez ex : Z) :
  ez <= ex -> ex <= 971 -> Z.pos (digits2_pos mx) <= 53 ->
  Z.pos P <= Z.pos mx * 2 ^ (ex - ez) ->
  SFin_range (binary_round prec emax false P ez) = true.
Proof.
  intros Hez Hex Hdx HP. unfold binary_round.
  set (t := fexp prec emax (Z.pos (digits2_pos P) + ez)).
  assert (Hmx : Z.pos mx <= 2 ^ 53 - 1).
  { pose proof (digits2_pos_bounds mx) as [_ B].
    assert (2 ^ Z.pos (digits2_pos mx) <= 2 ^ 53) by (apply Z.pow_le_mono_r; lia). lia. }
  assert (Hg : Z.pos (digits2_pos P) + ez <= 53 + ex).
  { pose proof (digits2_pos_bounds P) as [B _].
    destruct (Z.le_gt_cases (Z.pos (digits2_pos P) + ez) (53 + ex)) as [L|G]; [exact L|].
    assert (2 ^ (53 + (ex - ez)) <= 2 ^ (Z.pos (digits2_pos P) - 1))
      by (apply Z.pow_le_mono_r; lia).
    rewrite Z.pow_add_r in H by lia.
    assert (0 < 2 ^ (ex - ez)) by (apply Z.pow_pos_nonneg; lia). nia. }
  assert (Ht : -1074 <= t <= 971)
    by (unfold t, fexp, SpecFloat.emin, prec, emax; lia).
  unfold shl_align. destruct (t - ez) as [|k|k] eqn:Hk.
  - apply binary_round_aux_range; fold t; try lia.
    intros Heq.
    assert (0 < 2 ^ (ex - ez)) by (apply Z.pow_pos_nonneg; lia).
    assert (2 ^ (ex - ez) <= 2 ^ (971 - ez)) by (apply Z.pow_le_mono_r; lia).
    nia.
  - apply binary_round_aux_range; fold t; try lia.
    intros Heq.
    assert (0 < 2 ^ (ex - ez)) by (apply Z.pow_pos_nonneg; lia).
    assert (2 ^ (ex - ez) <= 2 ^ (971 - ez)) by (apply Z.pow_le_mono_r; lia).
    nia.
  - assert (Hd : Z.pos (digits2_pos (Pos.iter xO P k)) + t = Z.pos (digits2_pos P) + ez).
    { rewrite (digits2_pos_shift P _ (Z.pos k)); [lia|lia|apply iter_xO_pow]. }
    apply binary_round_aux_range; rewrite Hd; fold t; try lia.
Qed.

(** The difference of two valid positive doubles, the first not below the
    second, is a double from zero up, below infinity. *)
Lemma SFsub_in_range (x y : spec_float) :
  valid_binary x = true -> valid_binary y = true ->
  SFin_range x = true ->
  SFeqb y y = true -> SFleb y (S754_zero false) = false ->
  SFltb x y = false ->
  SFin_range (SF64sub x y) = true.
Proof.
  unfold SF64sub. intros Vx Vy Hx Hy Hpos Hlt.
  destruct x as [sx|sx| |sx mx ex], y as [sy|sy| |sy my ey];
    try discriminate;
    try (destruct sx; discriminate); try (destruct sy; discriminate);
    try (destruct sx, sy; discriminate).
  destruct sx; [discriminate|]. destruct sy; [discriminate|].
  pose proof (aligned_mantissas_le mx my ex ey Vx Vy Hlt) as Hle.
  apply valid_finite_digits in Vx as (Dx & _ & Ex).
  unfold SFsub, cond_Zopp.
  destruct (Z.pos (fst _) - Z.pos (fst _)) as [|P|P] eqn:Hd; [reflexivity| |lia].
  unfold binary_normalize.
  apply (binary_round_bounded P mx (Z.min ex ey) ex); try lia.
  rewrite <- shl_align_value by lia. lia.
Qed.

Lemma SFin_range_nonneg (x : spec_float) : SFin_range x = true -> SFnonneg x.
Proof.
  unfold SFnonneg. destruct x as [s|s| |s m e]; try discriminate; try reflexivity;
    destruct s; (discriminate || reflexivity).
Qed.

Lemma in_range_spec (b : float) : in_range b = SFin_range (Prim2SF b).
Proof.
  unfold in_range, SFin_range.
  now rewrite FloatAxioms.leb_spec, FloatAxioms.ltb_spec.
Qed.

Lemma sub_in_range (b a : float) :
  in_range b = true -> is_nan a = false -> (a <=? 0)%float = false ->
  (b <? a)%float = false ->
  in_range (b - a)%float = true.
Proof.
  unfold is_nan. intros Hb Hn Hpos Hlt.
  apply negb_false_iff in Hn.
  rewrite in_range_spec in *. rewrite FloatAxioms.ltb_spec in Hlt.
  rewrite FloatAxioms.leb_spec in Hpos. rewrite FloatAxioms.eqb_spec in Hn.
  rewrite Prim2SF_zero in *. rewrite sub_spec.
  apply SFsub_in_range; auto using Prim2SF_valid.
Qed.

Lemma in_range_nonneg (b : float) : in_range b = true -> nonneg b.
Proof.
  unfold nonneg. rewrite in_range_spec, FloatAxioms.ltb_spec, Prim2SF_zero.
  apply SFin_range_nonneg.
Qed.

End Doubles.

(** ** The ledger *)

Section Ledger.

Lemma userDatabase_john :
  userDatabase !! "john_doe"%string = Some {| password := "password123"; balance := 5000 |}.
Proof. apply lookup_singleton_eq. Qed.

Lemma userDatabase_lookup (k : string) (u : User) :
  userDatabase !! k = Some u -> k = "john_doe"%string /\ balance u = 5000%float.
Proof.
  unfold userDatabase. intros H. apply lookup_singleton_Some in H as [<- <-]. now split.
Qed.

Lemma userDatabase_nonneg : balances_nonneg userDatabase.
Proof. intros k u H. apply userDatabase_lookup in H as [_ ->]. reflexivity. Qed.

Lemma set_balance_nonneg (key : string) (u : User) (b : float) (db : gmap string User) :
  balances_nonneg db -> nonneg b -> balances_nonneg (set_balance key u b db).
Proof.
  intros Hdb Hb k v. unfold set_balance. rewrite lookup_insert.
  case_decide as E.
  - intros [= <-]. exact Hb.
  - apply Hdb.
Qed.

(** A credit keeps the balances from being negative. *)
Lemma post_deposit_nonneg (user : jwt.Payload) (amount : JsValue) (db : gmap string User) :
  balances_nonneg db -> balances_nonneg (snd (post_deposit user amount db)).
Proof.
  intros Hdb. unfold post_deposit.
  destruct (db !! property_key (jwt.username user)) as [u|] eqn:Hu; [|exact Hdb].
  destruct (nullish amount); [exact Hdb|].
  destruct (isNaN (parseFloat amount)) eqn:Hn; [exact Hdb|].
  destruct (parseFloat amount <=? 0)%float eqn:Hp; [exact Hdb|].
  apply set_balance_nonneg; [exact Hdb|].
  apply add_nonneg; eauto.
Qed.

(** A debit keeps the balances from being negative. *)
Lemma post_withdraw_nonneg (user : jwt.Payload) (amount : JsValue) (db : gmap string User) :
  balances_nonneg db -> balances_nonneg (snd (post_withdraw user amount db)).
Proof.
  intros Hdb. unfold post_withdraw.
  destruct (db !! property_key (jwt.username user)) as [u|] eqn:Hu; [|exact Hdb].
  destruct (nullish amount); [exact Hdb|].
  destruct (isNaN (parseFloat amount)) eqn:Hn; [exact Hdb|].
  destruct (parseFloat amount <=? 0)%float eqn:Hp; [exact Hdb|].
  destruct (balance u <? parseFloat amount)%float eqn:Hlt; [exact Hdb|].
  apply set_balance_nonneg; [exact Hdb|].
  apply sub_nonneg; eauto.
Qed.

Section Routes.

Variable mac : string -> jwt.Payload -> string.
Variable encode : jwt.Jws -> string.
Variable decode : string -> option jwt.Jws.
Variable JWT_SECRET : string.
Variable JWT_EXPIRES_IN : Z.

Lemma protected_invariant (P : gmap string User -> Prop) authorization now handler db :
  (forall user db, P db -> P (snd (handler user db))) ->
  P db -> P (snd (protected mac decode JWT_SECRET authorization now handler db)).
Proof.
  intros Hh Hdb. unfold protected.
  destruct (authMiddleware _ _ _ _ _); [apply Hh|]; exact Hdb.
Qed.

Lemma app_nonneg (req : Request) (now : Z) (db : gmap string User) :
  balances_nonneg db ->
  balances_nonneg (snd (app mac encode decode JWT_SECRET JWT_EXPIRES_IN req now db)).
Proof.
  intros Hdb. destruct req; simpl; [exact Hdb| | |];
    apply protected_invariant; auto using post_deposit_nonneg, post_withdraw_nonneg.
Qed.

(** No sequence of requests makes a balance negative. *)
Lemma run_nonneg (reqs : list (Request * Z)) (db : gmap string User) :
  balances_nonneg db ->
  balances_nonneg (run mac encode decode JWT_SECRET JWT_EXPIRES_IN reqs db).
Proof.
  revert db. induction reqs as [|[req now] rest IH]; intros db Hdb; simpl.
  - exact Hdb.
  - apply IH, app_nonneg, Hdb.
Qed.

End Routes.

(** A debit keeps the balances in range. *)
Lemma post_withdraw_in_range (user : jwt.Payload) (amount : JsValue) (db : gmap string User) :
  balances_in_range db -> balances_in_range (snd (post_withdraw user amount db)).
Proof.
  intros Hdb. unfold post_withdraw.
  destruct (db !! property_key (jwt.username user)) as [u|] eqn:Hu; [|exact Hdb].
  destruct (nullish amount); [exact Hdb|].
  destruct (isNaN (parseFloat amount)) eqn:Hn; [exact Hdb|].
  destruct (parseFloat amount <=? 0)%float eqn:Hp; [exact Hdb|].
  destruct (balance u <? parseFloat amount)%float eqn:Hlt; [exact Hdb|].
  intros k v. simpl snd. unfold set_balance. rewrite lookup_insert.
  case_decide as E; [|apply Hdb].
  intros [= <-]. simpl. apply sub_in_range; eauto.
Qed.

Lemma run_withdraw_in_range mac encode decode secret lifetime
    (reqs : list (Request * Z)) (db : gmap string User) :
  Forall is_withdraw reqs -> balances_in_range db ->
  balances_in_range (run mac encode decode secret lifetime reqs db).
Proof.
  intros Hreqs. revert db.
  induction Hreqs as [|[req now] rest Hreq _ IH]; intros db Hdb; simpl; [exact Hdb|].
  apply IH. destruct req; try contradiction. simpl.
  apply protected_invariant; auto using post_withdraw_in_range.
Qed.

Lemma userDatabase_in_range : balances_in_range userDatabase.
Proof. intros k u H. apply userDatabase_lookup in H as [_ ->]. reflexivity. Qed.

(** C1: for every sequence of withdraw requests the balances stay numbers
    from zero up, never negative; a withdrawal whose amount exceeds the
    balance of the account answers [InsufficientFunds] with that balance and
    changes nothing. *)
Theorem debit_never_negative mac encode decode secret lifetime (db : gmap string User) :
  balances_in_range db ->
  (forall reqs, Forall is_withdraw reqs ->
     let db' := run mac encode decode secret lifetime reqs db in
     balances_in_range db' /\ balances_nonneg db')
  /\ (forall user amount, balances_in_range (snd (post_withdraw user amount db)))
  /\ (forall user amount u,
        db !! property_key (jwt.username user) = Some u ->
        nullish amount = false ->
        (balance u <? parseFloat amount)%float = true ->
        post_withdraw user amount db = (InsufficientFunds (balance u), db)).
Proof.
  intros Hdb. split; [|split].
  - intros reqs Hreqs db'.
    assert (H : balances_in_range db') by (now apply run_withdraw_in_range).
    split; [exact H|]. intros k u Hu. apply in_range_nonneg, (H _ _ Hu).
  - intros user amount. now apply post_withdraw_in_range.
  - intros user amount u Hu Hnull Hlt. unfold post_withdraw. rewrite Hu, Hnull.
    destruct (ltb_nonneg_positive _ _ (in_range_nonneg _ (Hdb _ _ Hu)) Hlt) as [Hn Hp].
    unfold isNaN. now rewrite Hn, Hp, Hlt.
Qed.

Lemma debit_never_negative_witness :
  balances_in_range userDatabase
  /\ balances_in_range
       (Sample.run [(PostWithdraw (Some "Bearer john.valid"%string) (JNumber 1200), 10);
                    (PostWithdraw (Some "Bearer john.valid"%string) (JNumber 50000), 11)]
          userDatabase)
  /\ post_withdraw Sample.john (JNumber 50000) userDatabase
     = (InsufficientFunds 5000, userDatabase).
Proof.
  split; [exact userDatabase_in_range|].
  destruct (debit_never_negative Sample.mac Sample.encode Sample.decode
              default_JWT_SECRET default_JWT_EXPIRES_IN userDatabase userDatabase_in_range)
    as (Hrun & _ & Hfail).
  split.
  - apply Hrun. repeat constructor.
  - apply (Hfail Sample.john (JNumber 50000) _ userDatabase_john); reflexivity.
Defined.

(** C4, on what the handlers check: an amount that is [undefined] or [null]
    fails with [AmountRequired]; an amount that [parseFloat] turns into
    [NaN] fails with [InvalidAmount]; an amount that parses to a number at
    most 0 fails with [NonPositiveAmount]; each failure leaves the database,
    hence the balance, unchanged, for a deposit and for a withdrawal. *)
Theorem amount_validation (user : jwt.Payload) (amount : JsValue)
    (db : gmap string User) (u : User) :
  db !! property_key (jwt.username user) = Some u ->
  (nullish amount = true ->
     post_deposit user amount db = (AmountRequired, db)
     /\ post_withdraw user amount db = (AmountRequired, db))
  /\ (nullish amount = false -> isNaN (parseFloat amount) = true ->
        post_deposit user amount db = (InvalidAmount, db)
        /\ post_withdraw user amount db = (InvalidAmount, db))
  /\ (nullish amount = false -> isNaN (parseFloat amount) = false ->
      (parseFloat amount <=? 0)%float = true ->
        post_deposit user amount db = (NonPositiveAmount, db)
        /\ post_withdraw user amount db = (NonPositiveAmount, db)).
Proof.
  intros Hu. unfold post_deposit, post_withdraw. rewrite Hu.
  repeat split; intros; repeat match goal with H : _ = _ :> bool |- _ => rewrite H end;
    reflexivity.
Qed.

Lemma amount_validation_witness :
  userDatabase !! property_key (jwt.username Sample.john) = Some {| password := "password123"; balance := 5000 |}
  /\ post_deposit Sample.john JUndefined userDatabase = (AmountRequired, userDatabase)
  /\ post_withdraw Sample.john (JString "abc") userDatabase = (InvalidAmount, userDatabase)
  /\ post_deposit Sample.john (JNumber (-500)) userDatabase = (NonPositiveAmount, userDatabase)
  /\ post_withdraw Sample.john (JString "-Infinity") userDatabase = (NonPositiveAmount, userDatabase).
Proof.
  split; [exact userDatabase_john|].
  pose proof (amount_validation Sample.john JUndefined userDatabase _ userDatabase_john) as (H1 & _).
  pose proof (amount_validation Sample.john (JString "abc") userDatabase _ userDatabase_john) as (_ & H2 & _).
  pose proof (amount_validation Sample.john (JNumber (-500)) userDatabase _ userDatabase_john) as (_ & _ & H3).
  pose proof (amount_validation Sample.john (JString "-Infinity") userDatabase _ userDatabase_john) as (_ & _ & H4).
  split; [|split; [|split]].
  - apply H1. reflexivity.
  - apply H2; reflexivity.
  - apply H3; reflexivity.
  - apply H4; reflexivity.
Defined.

(** The string ["Infinity"] is an amount: it parses to a number that is not
    finite, and the deposit is made. *)
Lemma deposit_infinity :
  parseFloat (JString "Infinity") = infinity
  /\ status (fst (post_deposit Sample.john (JString "Infinity") userDatabase)) = 200
  /\ balance_of "john_doe" (snd (post_deposit Sample.john (JString "Infinity") userDatabase))
     = Some infinity.
Proof.
  unfold post_deposit. simpl jwt.username. simpl property_key.
  rewrite userDatabase_john. repeat split.
Qed.

(** C4 as the specification words it does not hold: [parseFloat] reads
    ["Infinity"], which is not a finite number, and the deposit succeeds. *)
Lemma spec_amount_validation_fails : ~ spec_amount_validation.
Proof.
  intros H.
  destruct (H Sample.john (JString "Infinity") userDatabase _ userDatabase_john
              eq_refl eq_refl) as [Hd _].
  pose proof deposit_infinity as (_ & Hs & _).
  rewrite Hd in Hs. discriminate Hs.
Qed.

(** *** The successful paths *)

Lemma lookup_set_balance (key : string) (u : User) (b : float) (db : gmap string User) :
  set_balance key u b db !! key = Some {| password := password u; balance := b |}.
Proof. unfold set_balance. apply lookup_insert_eq. Qed.

Lemma balance_of_set_balance (key : string) (u : User) (b : float) (db : gmap string User) :
  balance_of key (set_balance key u b db) = Some b.
Proof. unfold balance_of. now rewrite lookup_set_balance. Qed.

Lemma post_deposit_ok (user : jwt.Payload) (amount : JsValue)
    (db : gmap string User) (u : User) :
  db !! property_key (jwt.username user) = Some u ->
  nullish amount = false -> isNaN (parseFloat amount) = false ->
  (parseFloat amount <=? 0)%float = false ->
  post_deposit user amount db
  = (json 200 [("username", of_name (jwt.username user));
               ("balance", FNumber (balance u + parseFloat amount));
               ("message", FTemplate "Deposited $" (parseFloat amount))],
     set_balance (property_key (jwt.username user)) u (balance u + parseFloat amount) db).
Proof. intros Hu Hn Hnan Hp. unfold post_deposit. now rewrite Hu, Hn, Hnan, Hp. Qed.

Lemma post_withdraw_ok (user : jwt.Payload) (amount : JsValue)
    (db : gmap string User) (u : User) :
  db !! property_key (jwt.username user) = Some u ->
  nullish amount = false -> isNaN (parseFloat amount) = false ->
  (parseFloat amount <=? 0)%float = false ->
  (balance u <? parseFloat amount)%float = false ->
  post_withdraw user amount db
  = (json 200 [("username", of_name (jwt.username user));
               ("balance", FNumber (balance u - parseFloat amount));
               ("message", FTemplate "Withdrew $" (parseFloat amount))],
     set_balance (property_key (jwt.username user)) u (balance u - parseFloat amount) db).
Proof.
  intros Hu Hn Hnan Hp Hlt. unfold post_withdraw. now rewrite Hu, Hn, Hnan, Hp, Hlt.
Qed.

(** C8: a deposit of a valid positive amount answers 200 with the old
    balance plus the amount, which is the new balance of the account; from
    the initial balance 5000 a deposit of 1000 gives 6000 and a withdrawal of
    500 then gives 5500. *)
Theorem credit_adds :
  (forall (user : jwt.Payload) (amount : JsValue) (db : gmap string User) (u : User),
      db !! property_key (jwt.username user) = Some u ->
      nullish amount = false -> isNaN (parseFloat amount) = false ->
      (parseFloat amount <=? 0)%float = false ->
      let credit := post_deposit user amount db in
      status (fst credit) = 200
      /\ field "balance" (fst credit) = FNumber (balance u + parseFloat amount)
      /\ balance_of (property_key (jwt.username user)) (snd credit)
         = Some (balance u + parseFloat amount)%float)
  /\ (balance_of "john_doe" userDatabase = Some 5000%float
      /\ let credit := post_deposit Sample.john (JNumber 1000) userDatabase in
         let debit := post_withdraw Sample.john (JNumber 500) (snd credit) in
         status (fst credit) = 200
         /\ field "balance" (fst credit) = FNumber 6000
         /\ balance_of "john_doe" (snd credit) = Some 6000%float
         /\ status (fst debit) = 200
         /\ field "balance" (fst debit) = FNumber 5500
         /\ balance_of "john_doe" (snd debit) = Some 5500%float).
Proof.
  split.
  - intros user amount db u Hu Hn Hnan Hp credit. subst credit.
    rewrite (post_deposit_ok _ _ _ _ Hu Hn Hnan Hp). simpl fst. simpl snd.
    rewrite balance_of_set_balance. repeat split.
  - split; [unfold balance_of; now rewrite userDatabase_john|].
    rewrite (post_deposit_ok Sample.john (JNumber 1000) _ _ userDatabase_john)
      by reflexivity.
    simpl snd. simpl fst.
    rewrite (post_withdraw_ok Sample.john (JNumber 500) _ _ (lookup_set_balance _ _ _ _))
      by reflexivity.
    simpl snd. simpl fst. rewrite !balance_of_set_balance. repeat split.
Qed.

Lemma credit_adds_witness :
  userDatabase !! property_key (jwt.username Sample.john)
  = Some {| password := "password123"; balance := 5000 |}
  /\ field "balance" (fst (post_deposit Sample.john (JString "250.5") userDatabase))
     = FNumber 5250.5.
Proof.
  split; [exact userDatabase_john|].
  destruct credit_adds as [H _].
  destruct (H Sample.john (JString "250.5") userDatabase _ userDatabase_john
              eq_refl eq_refl eq_refl) as (_ & Hb & _).
  exact Hb.
Defined.



(** *** The round trip *)

(** A deposit of 5000.03 into the initial balance 5000 and a withdrawal of
    the same amount both succeed and leave 4999.999999999999. *)
Lemma round_trip_5000_03 :
  let amount := JNumber 0x1.38807ae147ae1p+12 in
  let credit := post_deposit Sample.john amount userDatabase in
  let debit := post_withdraw Sample.john amount (snd credit) in
  parse_decimal "5000.03" = 0x1.38807ae147ae1p+12%float
  /\ status (fst credit) = 200
  /\ balance_of "john_doe" (snd credit) = Some 0x1.38803d70a3d7p+13%float
  /\ status (fst debit) = 200
  /\ balance_of "john_doe" (snd debit) = Some 0x1.387ffffffffffp+12%float.
Proof.
  intros amount credit debit. subst credit debit amount.
  rewrite (post_deposit_ok Sample.john _ _ _ userDatabase_john) by reflexivity.
  simpl snd. simpl fst.
  rewrite (post_withdraw_ok Sample.john _ _ _ (lookup_set_balance _ _ _ _)) by reflexivity.
  simpl snd. simpl fst. rewrite !balance_of_set_balance.
  split; [vm_compute; reflexivity|]. repeat split.
Qed.

(** C5 as the specification words it does not hold: doubles round. *)
Lemma spec_round_trip_fails : ~ spec_round_trip.
Proof.
  intros H.
  pose proof round_trip_5000_03 as (_ & Hc & _ & Hd & Hb).
  pose proof (H Sample.john (JNumber 0x1.38807ae147ae1p+12) userDatabase _
                userDatabase_john eq_refl Hc Hd) as E.
  assert (E' : Some 0x1.387ffffffffffp+12%float = Some 5000%float)
    by (rewrite <- Hb; exact E).
  apply (f_equal (fun o => match o with
                          | Some x => (x <? 5000)%float
                          | None => false
                          end)) in E'.
  vm_compute in E'. discriminate E'.
Qed.

(** C5, for whole numbers: when the balance and the amount are whole
    numbers whose sum is below 2^53, the deposit and the withdrawal of the
    amount both succeed and the balance is back to what it was. *)
Theorem round_trip_whole (user : jwt.Payload) (amount : JsValue)
    (db : gmap string User) (u : User) (n m : Z) :
  db !! property_key (jwt.username user) = Some u ->
  balance u = whole n -> parseFloat amount = whole m ->
  0 <= n -> 0 < m -> n + m < 2 ^ 53 ->
  let credit := post_deposit user amount db in
  let debit := post_withdraw user amount (snd credit) in
  status (fst credit) = 200
  /\ balance_of (property_key (jwt.username user)) (snd credit) = Some (whole (n + m))
  /\ status (fst debit) = 200
  /\ balance_of (property_key (jwt.username user)) (snd debit) = Some (balance u).
Proof.
  intros Hu Hb Ha Hn Hm H credit debit. subst credit debit.
  destruct (whole_positive m ltac:(lia)) as [Hnan Hpos].
  assert (Hnull : nullish amount = false).
  { destruct amount; try reflexivity; simpl in Ha; rewrite <- Ha in Hnan; discriminate. }
  unfold isNaN in *. rewrite <- Ha in Hnan, Hpos.
  rewrite (post_deposit_ok _ _ _ _ Hu Hnull Hnan Hpos). simpl snd. simpl fst.
  rewrite Hb, Ha, add_whole by lia.
  assert (Hlt : (whole (n + m) <? whole m)%float = false) by (apply ltb_whole; lia).
  rewrite <- Ha in Hlt.
  rewrite (post_withdraw_ok _ _ _ _ (lookup_set_balance _ _ _ _) Hnull Hnan Hpos Hlt).
  simpl snd. simpl fst. simpl balance. rewrite !balance_of_set_balance.
  rewrite Ha, sub_whole by lia. repeat split.
Qed.

Lemma round_trip_whole_witness :
  userDatabase !! property_key (jwt.username Sample.john)
  = Some {| password := "password123"; balance := 5000 |}
  /\ 5000%float = whole 5000 /\ parseFloat (JNumber 1000) = whole 1000
  /\ 0 <= 5000 /\ 0 < 1000 /\ 5000 + 1000 < 2 ^ 53
  /\ balance_of "john_doe"
       (snd (post_withdraw Sample.john (JNumber 1000)
               (snd (post_deposit Sample.john (JNumber 1000) userDatabase))))
     = Some 5000%float.
Proof.
  split; [exact userDatabase_john|].
  split; [reflexivity|]. split; [reflexivity|].
  split; [lia|]. split; [lia|]. split; [reflexivity|].
  exact (proj2 (proj2 (proj2
    (round_trip_whole Sample.john (JNumber 1000) userDatabase _ 5000 1000
       userDatabase_john eq_refl eq_refl ltac:(lia) ltac:(lia) eq_refl)))).
Defined.

End Ledger.

(** ** The gate *)

Section Gate.

(** *** [split] *)

Lemma split_nonempty (sep : ascii) (s : string) : split sep s <> [].
Proof.
  destruct s as [|c s]; simpl; [discriminate|].
  destruct (Ascii.eqb c sep); [discriminate|].
  destruct (split sep s); discriminate.
Qed.

Lemma split_no_sep (sep : ascii) (s : string) :
  contains sep s = false -> split sep s = [s].
Proof.
  induction s as [|c s IH]; simpl; [reflexivity|].
  intros H. apply orb_false_elim in H as [Hc Hs].
  rewrite Hc, (IH Hs). reflexivity.
Qed.

Lemma split_one (sep : ascii) (s b : string) :
  split sep s = [b] -> s = b /\ contains sep s = false.
Proof.
  revert b. induction s as [|c s IH]; intros b; simpl.
  - intros [= <-]. now split.
  - destruct (Ascii.eqb c sep) eqn:Hc.
    + intros [= _ H]. now apply split_nonempty in H.
    + destruct (split sep s) as [|w ws] eqn:Hs; [now apply split_nonempty in Hs|].
      intros [= <- ->]. destruct (IH w eq_refl) as [-> Hn]. now split.
Qed.

Lemma split_two (sep : ascii) (s a b : string) :
  split sep s = [a; b] ->
  s = (a +:+ String sep b)%string /\ contains sep b = false.
Proof.
  revert a. induction s as [|c s IH]; intros a; simpl.
  - discriminate.
  - destruct (Ascii.eqb c sep) eqn:Hc.
    + intros [= <- H]. apply Ascii.eqb_eq in Hc as ->.
      apply split_one in H as [-> Hn]. now split.
    + destruct (split sep s) as [|w ws] eqn:Hs; [discriminate|].
      intros [= <- ->]. destruct (IH w eq_refl) as [-> Hn]. now split.
Qed.

Lemma split_bearer (token : string) :
  contains " " token = false -> split " " ("Bearer " +:+ token) = ["Bearer"%string; token].
Proof.
  intros H. simpl. change (""  +:+ token)%string with token.
  now rewrite (split_no_sep _ _ H).
Qed.

Section Codec.

Variable mac : string -> jwt.Payload -> string.
Variable encode : jwt.Jws -> string.
Variable decode : string -> option jwt.Jws.
Variable JWT_SECRET : string.
Variable JWT_EXPIRES_IN : Z.

Local Abbreviation gate := (authMiddleware mac decode JWT_SECRET).
Local Abbreviation verify_step := (verify_token mac decode JWT_SECRET).

(** *** The header *)

Lemma gate_bearer (token : string) (now : Z) :
  contains " " token = false ->
  gate (Some ("Bearer " +:+ token)%string) now = verify_step token now.
Proof.
  intros H. unfold authMiddleware. rewrite (split_bearer _ H). reflexivity.
Qed.

Lemma gate_shape (h : string) (now : Z) :
  h <> ""%string ->
  gate (Some h) now = Respond MalformedHeader
  \/ exists token, bearer_shape h token /\ gate (Some h) now = verify_step token now.
Proof.
  intros Hh. unfold authMiddleware.
  assert (Ht : truthy (JString h) = true).
  { simpl. apply negb_true_iff, String.eqb_neq, Hh. }
  rewrite Ht. simpl negb at 1. cbv iota.
  destruct (split " " h) as [|a [|b [|c l]]] eqn:Hs; simpl; auto.
  destruct (a =? "Bearer")%string eqn:Ha; simpl; auto.
  apply String.eqb_eq in Ha as ->.
  right. exists b. split; [|reflexivity].
  apply split_two in Hs as [-> Hn]. now split.
Qed.

Lemma gate_malformed (h : string) (now : Z) :
  h <> ""%string -> ~ (exists token, bearer_shape h token) ->
  gate (Some h) now = Respond MalformedHeader.
Proof.
  intros Hh Hno. destruct (gate_shape h now Hh) as [H|(token & Hs & _)]; [exact H|].
  exfalso. apply Hno. now exists token.
Qed.

(** *** The token *)

Lemma verify_step_valid (token : string) (p : jwt.Payload) (now : Z) :
  decode token = Some {| jwt.payload := p; jwt.signature := mac JWT_SECRET p |} ->
  verify_step token now
  = if now <? jwt.exp p then Next p else Respond (TokenExpired (Some (jwt.exp p))).
Proof.
  intros Hd. unfold verify_token, jwt.verify. rewrite Hd. simpl.
  rewrite String.eqb_refl. now destruct (now <? jwt.exp p).
Qed.


Lemma gate_valid_token (token : string) (p : jwt.Payload) (now : Z) :
  decode token = Some {| jwt.payload := p; jwt.signature := mac JWT_SECRET p |} ->
  contains " " token = false ->
  gate (Some ("Bearer " +:+ token)%string) now
  = if now <? jwt.exp p then Next p else Respond (TokenExpired (Some (jwt.exp p))).
Proof. intros Hd Hn. now rewrite (gate_bearer _ _ Hn), (verify_step_valid _ _ _ Hd). Qed.

(** C6, with the empty header on the side of the absent one: a header that
    is absent or empty gives [NoToken]; any other header that is not
    [Bearer <token>] gives [MalformedHeader]; a header [Bearer <token>] goes
    to the verification of the token, and no other header does. *)
Theorem gate_header_checks (header : option string) (now : Z) :
  (header = None \/ header = Some ""%string -> gate header now = Respond NoToken)
  /\ (forall h, header = Some h -> h <> ""%string ->
        ~ (exists token, bearer_shape h token) ->
        gate header now = Respond MalformedHeader)
  /\ (forall h token, header = Some h -> bearer_shape h token ->
        gate header now = verify_step token now)
  /\ (gate header now <> Respond NoToken ->
      gate header now <> Respond MalformedHeader ->
      exists h token, header = Some h /\ bearer_shape h token
                      /\ gate header now = verify_step token now).
Proof.
  split; [|split; [|split]].
  - intros [->| ->]; reflexivity.
  - intros h -> Hh Hno. now apply gate_malformed.
  - intros h token -> [-> Hn]. now apply gate_bearer.
  - intros H1 H2. destruct header as [h|]; [|now contradiction H1].
    destruct (String.eqb_spec h "") as [->|Hh]; [now contradiction H1|].
    destruct (gate_shape h now Hh) as [H|(token & Hs & Hv)]; [now contradiction H2|].
    now exists h, token.
Qed.

(** C2: a token signed with the gate's secret, with expiry [t]: before [t]
    the gate calls the handler with the claims of the token; from [t] on it
    answers [TokenExpired], with [t] in [expiredAt]. *)
Theorem token_expiry (token : string) (p : jwt.Payload) (now : Z) :
  decode token = Some {| jwt.payload := p; jwt.signature := mac JWT_SECRET p |} ->
  contains " " token = false ->
  (now < jwt.exp p -> gate (Some ("Bearer " +:+ token)%string) now = Next p)
  /\ (jwt.exp p <= now ->
      gate (Some ("Bearer " +:+ token)%string) now
      = Respond (TokenExpired (Some (jwt.exp p))))
  /\ status (TokenExpired (Some (jwt.exp p))) = 401
  /\ field "expiredAt" (TokenExpired (Some (jwt.exp p))) = FDate (jwt.exp p).
Proof.
  intros Hd Hn. rewrite (gate_valid_token _ _ _ Hd Hn).
  repeat split.
  - intros H. apply Z.ltb_lt in H. now rewrite H.
  - intros H. apply Z.ltb_ge in H. now rewrite H.
Qed.

Section KeySeparation.

(** The MAC separates keys: no tag is valid under two keys. *)
Hypothesis mac_separates : forall k1 k2 p, k1 <> k2 -> mac k1 p <> mac k2 p.


End KeySeparation.

(** *** The accounts after the gate *)

Lemma only_john_userDatabase : only_john userDatabase.
Proof.
  intros k [u Hu]. unfold userDatabase in Hu.
  now apply lookup_singleton_Some in Hu as [<- _].
Qed.

Lemma only_john_set_balance (key : string) (u u' : User) (b : float)
    (db : gmap string User) :
  only_john db -> db !! key = Some u' -> only_john (set_balance key u b db).
Proof.
  intros Hdb Hu k. unfold set_balance. rewrite lookup_insert.
  case_decide as E; [subst k; intros _; apply Hdb; eauto | apply Hdb].
Qed.

Lemma only_john_post_deposit (user : jwt.Payload) (amount : JsValue)
    (db : gmap string User) :
  only_john db -> only_john (snd (post_deposit user amount db)).
Proof.
  intros Hdb. unfold post_deposit.
  destruct (db !! property_key (jwt.username user)) as [u|] eqn:Hu; [|exact Hdb].
  destruct (nullish amount); [exact Hdb|].
  destruct (isNaN (parseFloat amount)); [exact Hdb|].
  destruct (parseFloat amount <=? 0)%float; [exact Hdb|].
  now apply (only_john_set_balance _ _ u).
Qed.

Lemma only_john_post_withdraw (user : jwt.Payload) (amount : JsValue)
    (db : gmap string User) :
  only_john db -> only_john (snd (post_withdraw user amount db)).
Proof.
  intros Hdb. unfold post_withdraw.
  destruct (db !! property_key (jwt.username user)) as [u|] eqn:Hu; [|exact Hdb].
  destruct (nullish amount); [exact Hdb|].
  destruct (isNaN (parseFloat amount)); [exact Hdb|].
  destruct (parseFloat amount <=? 0)%float; [exact Hdb|].
  destruct (balance u <? parseFloat amount)%float; [exact Hdb|].
  now apply (only_john_set_balance _ _ u).
Qed.

(** The requests never add an account. *)
Lemma reachable_only_john (db : gmap string User) :
  reachable mac encode decode JWT_SECRET JWT_EXPIRES_IN db -> only_john db.
Proof.
  intros [reqs ->]. generalize only_john_userDatabase. generalize userDatabase.
  induction reqs as [|[req now] rest IH]; intros db Hdb; simpl; [exact Hdb|].
  apply IH. destruct req; simpl; [exact Hdb| | |];
    apply protected_invariant;
    auto using only_john_post_deposit, only_john_post_withdraw.
Qed.

Lemma reachable_no_undefined (db : gmap string User) :
  reachable mac encode decode JWT_SECRET JWT_EXPIRES_IN db ->
  db !! property_key None = None.
Proof.
  intros H. apply reachable_only_john in H.
  destruct (db !! property_key None) as [u|] eqn:Hu; [|reflexivity].
  specialize (H _ (ex_intro _ u Hu)). discriminate H.
Qed.

(** C9: a token signed with the gate's secret and not expired, whose claims
    have no identity: the gate calls the handler, and the balance, deposit
    and withdraw handlers answer [NotFound], with status 404, whatever the
    amount. *)
Theorem identityless_token_not_found (token : string) (p : jwt.Payload) (now : Z)
    (amount : JsValue) (db : gmap string User) :
  decode token = Some {| jwt.payload := p; jwt.signature := mac JWT_SECRET p |} ->
  contains " " token = false ->
  jwt.username p = None ->
  now < jwt.exp p ->
  reachable mac encode decode JWT_SECRET JWT_EXPIRES_IN db ->
  let authorization := Some ("Bearer " +:+ token)%string in
  let serve req := app mac encode decode JWT_SECRET JWT_EXPIRES_IN req now db in
  gate authorization now = Next p
  /\ serve (GetBalance authorization) = (NotFound, db)
  /\ serve (PostDeposit authorization amount) = (NotFound, db)
  /\ serve (PostWithdraw authorization amount) = (NotFound, db)
  /\ status NotFound = 404.
Proof.
  intros Hd Hn Hu Hexp Hdb authorization serve.
  pose proof (gate_valid_token token p now Hd Hn) as Hok.
  apply Z.ltb_lt in Hexp. rewrite Hexp in Hok. apply reachable_no_undefined in Hdb.
  subst serve authorization. unfold app, protected. rewrite Hok.
  unfold get_balance, post_deposit, post_withdraw. rewrite Hu, Hdb.
  repeat split.
Qed.

(** *** The issuer *)

Lemma truthy_string (s : string) : truthy (JString s) = true <-> s <> ""%string.
Proof. simpl. rewrite negb_true_iff. apply String.eqb_neq. Qed.

(** A login with two truthy fields that are not the known pair. *)
Lemma post_login_mismatch (username password : JsValue) (now : Z) :
  truthy username = true -> truthy password = true ->
  ~ (username = JString VALID_USERNAME /\ password = JString VALID_PASSWORD) ->
  post_login mac encode JWT_SECRET JWT_EXPIRES_IN username password now
  = InvalidCredentials.
Proof.
  intros Hu Hp Hne. unfold post_login. rewrite Hu, Hp. simpl negb. simpl orb. cbv iota.
  destruct (strict_eq_string username VALID_USERNAME) eqn:Eu; [|reflexivity].
  destruct (strict_eq_string password VALID_PASSWORD) eqn:Ep; [|reflexivity].
  exfalso. apply Hne.
  destruct username; try discriminate. destruct password; try discriminate.
  simpl in Eu, Ep. apply String.eqb_eq in Eu, Ep. now subst.
Qed.

(** C7: a login without a username or a password, or with an empty one,
    answers [MissingFields]; any other login whose pair is not the known one
    answers [InvalidCredentials], the same response for an unknown username
    as for a wrong password. *)
Theorem login_errors (now : Z) :
  let login u p := post_login mac encode JWT_SECRET JWT_EXPIRES_IN u p now in
  (forall username password,
      absent_or_empty username \/ absent_or_empty password ->
      login username password = MissingFields)
  /\ (forall u p,
        u <> ""%string -> p <> ""%string ->
        u <> VALID_USERNAME \/ p <> VALID_PASSWORD ->
        login (JString u) (JString p) = InvalidCredentials)
  /\ (forall u p p',
        u <> ""%string -> p <> ""%string -> p' <> ""%string ->
        u <> VALID_USERNAME -> p' <> VALID_PASSWORD ->
        login (JString u) (JString p) = login (JString VALID_USERNAME) (JString p'))
  /\ (forall username password,
        truthy username = true -> truthy password = true ->
        ~ (username = JString VALID_USERNAME /\ password = JString VALID_PASSWORD) ->
        login username password = InvalidCredentials)
  /\ status MissingFields = 400 /\ status InvalidCredentials = 401.
Proof.
  intros login.
  assert (Hbad : forall u p, u <> ""%string -> p <> ""%string ->
            u <> VALID_USERNAME \/ p <> VALID_PASSWORD ->
            login (JString u) (JString p) = InvalidCredentials).
  { intros u p Hu Hp Hne. apply post_login_mismatch; try now apply truthy_string.
    intros [[= ->] [= ->]]. now destruct Hne. }
  split; [|split; [exact Hbad|split; [|split; [|split; reflexivity]]]].
  - intros username password [[Hn| ->]|[Hn| ->]]; subst login; unfold post_login.
    + destruct username; try discriminate Hn; reflexivity.
    + reflexivity.
    + destruct password; try discriminate Hn; simpl; now rewrite orb_true_r.
    + simpl. now rewrite orb_true_r.
  - intros u p p' Hu Hp Hp' Hne Hne'.
    rewrite (Hbad u p), (Hbad VALID_USERNAME p'); auto; discriminate.
  - intros username password. apply post_login_mismatch.
Qed.

(** *** From the issuer to the gate *)

Section Issued.

(** The parser reads back what the serialisation wrote, and a serialised
    token has no space. *)
Hypothesis decode_encode : forall j, decode (encode j) = Some j.
Hypothesis encode_no_space : forall j, contains " " (encode j) = false.

(** The token a successful login returns at [issued] is accepted by the
    gate until [issued + JWT_EXPIRES_IN], and expired from then on. *)
Lemma issued_token_lifetime (issued now : Z) :
  let claims := {| jwt.username := Some VALID_USERNAME; jwt.iat := issued;
                   jwt.exp := issued + JWT_EXPIRES_IN |} in
  let token := jwt.sign mac encode (Some VALID_USERNAME) JWT_SECRET JWT_EXPIRES_IN issued in
  post_login mac encode JWT_SECRET JWT_EXPIRES_IN
    (JString VALID_USERNAME) (JString VALID_PASSWORD) issued
  = json 200 [("message", FString "Login successful"); ("token", FString token)]
  /\ gate (Some ("Bearer " +:+ token)%string) now
     = if now <? issued + JWT_EXPIRES_IN then Next claims
       else Respond (TokenExpired (Some (issued + JWT_EXPIRES_IN))).
Proof.
  intros claims token. split; [reflexivity|].
  subst token. unfold jwt.sign.
  apply (gate_valid_token _ claims now); [apply decode_encode|apply encode_no_space].
Qed.

End Issued.

End Codec.

End Gate.

(** ** The properties on the example codec *)

Section Examples.

Lemma configured_secret_default :
  configured_secret None = default_JWT_SECRET
  /\ configured_secret (Some ""%string) = default_JWT_SECRET
  /\ configured_secret (Some "s3cret"%string) = "s3cret"%string.
Proof. repeat split. Qed.


(** C6 as the specification words it does not hold: an empty header is a
    header that is not [Bearer <token>], and it is answered [NoToken]. *)
Lemma spec_gate_order_fails : ~ spec_gate_order.
Proof.
  intros H.
  destruct (H Sample.mac Sample.decode default_JWT_SECRET (Some ""%string) 0) as [_ Hm].
  specialize (Hm ""%string eq_refl).
  assert (Hno : ~ (exists token, bearer_shape "" token)).
  { intros (token & Hs & _). discriminate Hs. }
  specialize (Hm Hno). discriminate Hm.
Qed.

Lemma gate_header_checks_witness :
  Sample.authMiddleware None 0 = Respond NoToken
  /\ Sample.authMiddleware (Some ""%string) 0 = Respond NoToken
  /\ Sample.authMiddleware (Some "Basic john.valid"%string) 0 = Respond MalformedHeader
  /\ Sample.authMiddleware (Some "Bearer john.valid extra"%string) 0 = Respond MalformedHeader
  /\ Sample.authMiddleware (Some "Bearer john.valid"%string) 0
     = verify_token Sample.mac Sample.decode default_JWT_SECRET "john.valid" 0.
Proof.
  pose proof (gate_header_checks Sample.mac Sample.decode default_JWT_SECRET) as G.
  assert (Basic : ~ (exists token, bearer_shape "Basic john.valid" token)).
  { intros (token & Hs & _). discriminate Hs. }
  assert (Extra : ~ (exists token, bearer_shape "Bearer john.valid extra" token)).
  { intros (token & Hs & Hn). pose proof (split_bearer token Hn) as E.
    rewrite <- Hs in E. discriminate E. }
  destruct (G None 0) as (N1 & _).
  destruct (G (Some ""%string) 0) as (N2 & _).
  destruct (G (Some "Basic john.valid"%string) 0) as (_ & M1 & _).
  destruct (G (Some "Bearer john.valid extra"%string) 0) as (_ & M2 & _).
  destruct (G (Some "Bearer john.valid"%string) 0) as (_ & _ & V & _).
  split; [|split; [|split; [|split]]].
  - apply N1. now left.
  - apply N2. now right.
  - apply (M1 _ eq_refl); [discriminate|exact Basic].
  - apply (M2 _ eq_refl); [discriminate|exact Extra].
  - apply (V _ "john.valid"%string eq_refl). now split.
Defined.

Lemma token_expiry_witness :
  Sample.decode "john.valid" = Some (Sample.signed default_JWT_SECRET Sample.john)
  /\ contains " " "john.valid" = false
  /\ Sample.authMiddleware (Some "Bearer john.valid"%string) 86399 = Next Sample.john
  /\ Sample.authMiddleware (Some "Bearer john.valid"%string) 86400
     = Respond (TokenExpired (Some 86400)).
Proof.
  pose proof (token_expiry Sample.mac Sample.decode default_JWT_SECRET "john.valid"
                Sample.john) as T.
  destruct (T 86399 eq_refl eq_refl) as (A & _).
  destruct (T 86400 eq_refl eq_refl) as (_ & E & _).
  split; [reflexivity|]. split; [reflexivity|]. split.
  - apply A. reflexivity.
  - apply E. discriminate.
Defined.


Lemma identityless_token_not_found_witness :
  Sample.decode "anonymous.valid" = Some (Sample.signed default_JWT_SECRET Sample.anonymous)
  /\ jwt.username Sample.anonymous = None
  /\ 10 < jwt.exp Sample.anonymous
  /\ reachable Sample.mac Sample.encode Sample.decode default_JWT_SECRET
       default_JWT_EXPIRES_IN userDatabase
  /\ Sample.app (GetBalance (Some "Bearer anonymous.valid"%string)) 10 userDatabase
     = (NotFound, userDatabase)
  /\ Sample.app (PostWithdraw (Some "Bearer anonymous.valid"%string) JUndefined) 10 userDatabase
     = (NotFound, userDatabase).
Proof.
  assert (R : reachable Sample.mac Sample.encode Sample.decode default_JWT_SECRET
                default_JWT_EXPIRES_IN userDatabase) by (now exists []).
  destruct (identityless_token_not_found Sample.mac Sample.encode Sample.decode
              default_JWT_SECRET default_JWT_EXPIRES_IN "anonymous.valid"
              Sample.anonymous 10 JUndefined userDatabase eq_refl eq_refl eq_refl eq_refl R)
    as (_ & Hb & _ & Hw & _).
  split; [reflexivity|]. split; [reflexivity|]. split; [reflexivity|].
  split; [exact R|]. split; [exact Hb|exact Hw].
Defined.

Lemma login_errors_witness :
  absent_or_empty JUndefined
  /\ Sample.post_login JUndefined (JString "password123") 0 = MissingFields
  /\ Sample.post_login (JString "john_doe") (JString "wrong") 0 = InvalidCredentials
  /\ Sample.post_login (JString "nobody") (JString "password123") 0
     = Sample.post_login (JString "john_doe") (JString "wrong") 0.
Proof.
  destruct (login_errors Sample.mac Sample.encode default_JWT_SECRET
              default_JWT_EXPIRES_IN 0) as (Hm & Hi & Hs & _).
  assert (A : absent_or_empty JUndefined) by (now left).
  split; [exact A|]. split; [|split].
  - apply Hm. left. exact A.
  - apply Hi; [discriminate|discriminate|]. right. discriminate.
  - apply Hs; discriminate.
Defined.

(** The scenarios of the specification, through the routes. *)
Lemma scenarios :
  status (Sample.post_login (JString "john_doe") (JString "password123") 0) = 200
  /\ Sample.post_login (JString "john_doe") (JString "wrong") 0 = InvalidCredentials
  /\ fst (Sample.app (GetBalance (Some "Bearer john.valid"%string)) 10 userDatabase)
     = json 200 [("username", FString "john_doe"); ("balance", FNumber 5000)]
  /\ fst (Sample.app (GetBalance None) 10 userDatabase) = NoToken
  /\ fst (Sample.app (GetBalance (Some "Bearer garbage"%string)) 10 userDatabase)
     = InvalidToken
  /\ (let db := Sample.run [(PostDeposit (Some "Bearer john.valid"%string) (JNumber 1000), 10);
                            (PostWithdraw (Some "Bearer john.valid"%string) (JNumber 500), 11)]
                  userDatabase in
      balance_of "john_doe" db = Some 5500%float
      /\ Sample.app (PostWithdraw (Some "Bearer john.valid"%string) (JNumber 50000)) 12 db
         = (InsufficientFunds 5500, db)).
Proof. vm_compute. repeat split. Qed.

End Examples.

(** * More of the code *)

(** ** More on doubles *)

Section Comparisons.

Lemma SFpositive_iff (y : spec_float) :
  SFltb (S754_zero false) y = true
  <-> SFeqb y y = true /\ SFleb y (S754_zero false) = false.
Proof.
  destruct y as [s|s| |s m e]; simpl.
  - split; [discriminate|intros [_ H]; discriminate H].
  - destruct s; (split; [try discriminate; now split|]); intros [_ H];
      (discriminate H || reflexivity).
  - split; [discriminate|intros [H _]; discriminate H].
  - destruct s.
    + split; [discriminate|intros [_ H]; discriminate H].
    + split; [|reflexivity]. intros _. split; [apply SFeqb_finite_refl|reflexivity].
Qed.

(** A number is above zero when it is not [NaN] and not at most zero. *)
Lemma positive_iff (x : float) :
  (0 <? x)%float = true <-> is_nan x = false /\ (x <=? 0)%float = false.
Proof.
  unfold is_nan.
  rewrite FloatAxioms.ltb_spec, FloatAxioms.leb_spec, FloatAxioms.eqb_spec, Prim2SF_zero.
  rewrite negb_false_iff. apply SFpositive_iff.
Qed.

Lemma SFeqb_refl_false (x : spec_float) : SFeqb x x = false -> x = S754_nan.
Proof.
  destruct x as [s|s| |s m e]; try reflexivity.
  - discriminate.
  - destruct s; discriminate.
  - now rewrite SFeqb_finite_refl.
Qed.

Lemma is_nan_spec (b : float) : is_nan b = true -> Prim2SF b = S754_nan.
Proof.
  unfold is_nan. rewrite FloatAxioms.eqb_spec, negb_true_iff. apply SFeqb_refl_false.
Qed.

(** [NaN] is below nothing, and stays [NaN] after a subtraction. *)
Lemma nan_sub (b a : float) :
  is_nan b = true -> (b <? a)%float = false /\ is_nan (b - a)%float = true.
Proof.
  intros H. apply is_nan_spec in H. split.
  - now rewrite FloatAxioms.ltb_spec, H.
  - unfold is_nan. now rewrite FloatAxioms.eqb_spec, sub_spec, H.
Qed.

Lemma SFsub_self (x : spec_float) :
  SFin_range x = true -> SF64sub x x = S754_zero false /\ SFltb x x = false.
Proof.
  intros Hx. destruct x as [s|s| |s m e].
  - now destruct s.
  - destruct s; discriminate Hx.
  - discriminate Hx.
  - destruct s; [discriminate Hx|]. split.
    + unfold SF64sub, SFsub, cond_Zopp. cbv zeta. now rewrite Z.sub_diag.
    + pose proof (SFeqb_finite_refl false m e) as H.
      unfold SFeqb in H. unfold SFltb.
      destruct (SFcompare _ _) as [[| |]|]; (discriminate || reflexivity).
Qed.

(** A balance from zero up minus itself is zero, and is not below itself. *)
Lemma sub_self (b : float) :
  in_range b = true -> (b - b)%float = 0%float /\ (b <? b)%float = false.
Proof.
  rewrite in_range_spec. intros H. destruct (SFsub_self _ H) as [Hs Hl]. split.
  - apply Prim2SF_inj. now rewrite sub_spec, Prim2SF_zero.
  - now rewrite FloatAxioms.ltb_spec.
Qed.

Lemma SFltb_canon_lt (n m : positive) :
  Z.pos n < Z.pos m < 2 ^ 53 -> SFltb (canon n) (canon m) = true.
Proof.
  intros [Hlt H]. pose proof (digits2_pos_mono n m ltac:(lia)) as Hd.
  assert (Hm : Z.pos (digits2_pos m) <= 53) by (apply digits_le_53; lia).
  unfold SFltb, canon, SFcompare.
  destruct (Z.pos (digits2_pos n) - 53 ?= Z.pos (digits2_pos m) - 53) eqn:C.
  - apply Z.compare_eq in C.
    change (Pos.compare_cont Eq ?a ?b) with (a ?= b)%positive.
    replace (_ ?= _)%positive with Lt; [reflexivity|].
    symmetry. apply Pos.compare_lt_iff.
    match goal with |- (?a < ?b)%positive => change (Z.pos a < Z.pos b) end.
    rewrite !shiftl_value by lia.
    replace (Z.pos (digits2_pos n)) with (Z.pos (digits2_pos m)) by lia.
    assert (0 < 2 ^ (53 - Z.pos (digits2_pos m))) by (apply Z.pow_pos_nonneg; lia). nia.
  - reflexivity.
  - rewrite Z.compare_gt_iff in C. lia.
Qed.

(** A whole number is below every larger whole number. *)
Lemma ltb_whole_lt (n m : Z) :
  0 <= n -> n < m < 2 ^ 53 -> (whole n <? whole m)%float = true.
Proof.
  intros Hn H. rewrite FloatAxioms.ltb_spec, !Prim2SF_whole by lia.
  destruct m as [|m|m]; try lia. rewrite (Z2SF_pos m) by lia.
  destruct n as [|n|n]; try lia.
  - reflexivity.
  - rewrite Z2SF_pos by lia. apply SFltb_canon_lt. lia.
Qed.

(** A positive whole number is read back by [parseFloat] as it is. *)
Lemma parseFloat_whole (m : Z) :
  0 < m < 2 ^ 53 -> parseFloat (JNumber (whole m)) = whole m.
Proof.
  intros H. simpl. unfold is_zero.
  rewrite FloatAxioms.eqb_spec, Prim2SF_whole by lia.
  destruct m as [|m|m]; try lia. now rewrite Z2SF_pos by lia.
Qed.

End Comparisons.

(** ** More on the ledger *)

Section LedgerCoverage.


Lemma post_deposit_200 (user : jwt.Payload) (amount : JsValue)
    (db : gmap string User) :
  status (fst (post_deposit user amount db)) = 200
  <-> is_Some (db !! property_key (jwt.username user))
      /\ nullish amount = false
      /\ (0 <? parseFloat amount)%float = true.
Proof.
  rewrite positive_iff. unfold post_deposit, isNaN.
  destruct (db !! property_key (jwt.username user)) as [u|]; simpl.
  2: { split; [discriminate|]. intros ([u Hu] & _). discriminate Hu. }
  destruct (nullish amount); simpl.
  { split; [discriminate|]. intros (_ & H & _). discriminate H. }
  destruct (is_nan (parseFloat amount)); simpl.
  { split; [discriminate|]. intros (_ & _ & H & _). discriminate H. }
  destruct (parseFloat amount <=? 0)%float; simpl.
  { split; [discriminate|]. intros (_ & _ & _ & H). discriminate H. }
  split; [|reflexivity]. intros _. repeat split. now exists u.
Qed.

Lemma post_withdraw_200 (user : jwt.Payload) (amount : JsValue)
    (db : gmap string User) :
  status (fst (post_withdraw user amount db)) = 200
  <-> exists u, db !! property_key (jwt.username user) = Some u
                /\ nullish amount = false
                /\ (0 <? parseFloat amount)%float = true
                /\ (balance u <? parseFloat amount)%float = false.
Proof.
  unfold post_withdraw, isNaN.
  destruct (db !! property_key (jwt.username user)) as [u|]; simpl.
  2: { split; [discriminate|]. intros (u & Hu & _). discriminate Hu. }
  destruct (nullish amount); simpl.
  { split; [discriminate|]. intros (u' & _ & H & _). discriminate H. }
  destruct (is_nan (parseFloat amount)) eqn:Hn; simpl.
  { split; [discriminate|]. intros (u' & _ & _ & H & _).
    apply positive_iff in H as [H _]. rewrite Hn in H. discriminate H. }
  destruct (parseFloat amount <=? 0)%float eqn:Hp; simpl.
  { split; [discriminate|]. intros (u' & _ & _ & H & _).
    apply positive_iff in H as [_ H]. rewrite Hp in H. discriminate H. }
  destruct (balance u <? parseFloat amount)%float eqn:Hlt; simpl.
  { split; [discriminate|]. intros (u' & [= <-] & _ & _ & H).
    rewrite Hlt in H. discriminate H. }
  split; [|reflexivity]. intros _. exists u. repeat split; [|exact Hlt].
  apply positive_iff. now split.
Qed.



(** The record of an account other than the caller's, and the password of
    every account, after a handler. *)
Lemma post_deposit_frame (user : jwt.Payload) (amount : JsValue)
    (db : gmap string User) (k : string) :
  (k <> property_key (jwt.username user) ->
   snd (post_deposit user amount db) !! k = db !! k)
  /\ password <$> snd (post_deposit user amount db) !! k = password <$> db !! k.
Proof.
  unfold post_deposit.
  destruct (db !! property_key (jwt.username user)) as [u|] eqn:Hu; [|now split].
  destruct (nullish amount); [now split|].
  destruct (isNaN (parseFloat amount)); [now split|].
  destruct (parseFloat amount <=? 0)%float; [now split|].
  simpl snd. unfold set_balance. split.
  - intros Hk. now rewrite lookup_insert_ne.
  - rewrite lookup_insert. case_decide as E; [|reflexivity].
    subst k. now rewrite Hu.
Qed.

Lemma post_withdraw_frame (user : jwt.Payload) (amount : JsValue)
    (db : gmap string User) (k : string) :
  (k <> property_key (jwt.username user) ->
   snd (post_withdraw user amount db) !! k = db !! k)
  /\ password <$> snd (post_withdraw user amount db) !! k = password <$> db !! k.
Proof.
  unfold post_withdraw.
  destruct (db !! property_key (jwt.username user)) as [u|] eqn:Hu; [|now split].
  destruct (nullish amount); [now split|].
  destruct (isNaN (parseFloat amount)); [now split|].
  destruct (parseFloat amount <=? 0)%float; [now split|].
  destruct (balance u <? parseFloat amount)%float; [now split|].
  simpl snd. unfold set_balance. split.
  - intros Hk. now rewrite lookup_insert_ne.
  - rewrite lookup_insert. case_decide as E; [|reflexivity].
    subst k. now rewrite Hu.
Qed.

Lemma run_passwords mac encode decode secret lifetime
    (reqs : list (Request * Z)) (db : gmap string User) (k : string) :
  password <$> run mac encode decode secret lifetime reqs db !! k = password <$> db !! k.
Proof.
  revert db. induction reqs as [|[req now] rest IH]; intros db; simpl; [reflexivity|].
  rewrite IH. destruct req; simpl; try reflexivity.
  - unfold protected. now destruct (authMiddleware _ _ _ _ _).
  - unfold protected. destruct (authMiddleware _ _ _ _ _); [|reflexivity].
    apply post_deposit_frame.
  - unfold protected. destruct (authMiddleware _ _ _ _ _); [|reflexivity].
    apply post_withdraw_frame.
Qed.

(** X4: whatever the requests, the accounts of the database and their
    passwords stay what they were: no account is added or removed, and only
    balances change. *)
Theorem accounts_and_passwords_fixed mac encode decode secret lifetime
    (reqs : list (Request * Z)) (db : gmap string User) :
  let db' := run mac encode decode secret lifetime reqs db in
  dom db' = dom db
  /\ forall k, password <$> db' !! k = password <$> db !! k.
Proof.
  intros db'. split; [|intros k; apply run_passwords].
  apply set_eq. intros k. rewrite !elem_of_dom.
  pose proof (run_passwords mac encode decode secret lifetime reqs db k) as H.
  fold db' in H. destruct (db' !! k), (db !! k); try discriminate H;
    split; intros [? E]; try discriminate E; eauto.
Qed.

(** X5: a deposit or a withdrawal changes no account but the one of the
    identity it is made for. *)
Theorem other_accounts_untouched (user : jwt.Payload) (amount : JsValue)
    (db : gmap string User) (k : string) :
  k <> property_key (jwt.username user) ->
  snd (post_deposit user amount db) !! k = db !! k
  /\ snd (post_withdraw user amount db) !! k = db !! k.
Proof.
  intros Hk. split; [now apply post_deposit_frame | now apply post_withdraw_frame].
Qed.

End LedgerCoverage.

Section LedgerComposition.

Lemma other_accounts_untouched_witness :
  let db := <["alice"%string := {| password := "wonderland"; balance := 70 |}]> userDatabase in
  "alice"%string <> property_key (jwt.username Sample.john)
  /\ snd (post_deposit Sample.john (JNumber 1000) db) !! "alice"%string
     = Some {| password := "wonderland"; balance := 70 |}
  /\ balance_of "john_doe" (snd (post_deposit Sample.john (JNumber 1000) db))
     = Some 6000%float.
Proof.
  intros db.
  assert (Hk : "alice"%string <> property_key (jwt.username Sample.john)) by discriminate.
  split; [exact Hk|]. split.
  - rewrite (proj1 (other_accounts_untouched Sample.john (JNumber 1000) db "alice" Hk)).
    apply lookup_insert_eq.
  - reflexivity.
Defined.

(** X6: the balance a successful deposit or withdrawal answers with is the
    balance [GET /balance] answers with for the same identity right after. *)
Theorem balance_reads_last_write (user : jwt.Payload) (amount : JsValue)
    (db : gmap string User) :
  let read r := json 200 [("username", of_name (jwt.username user));
                          ("balance", field "balance" (fst r))] in
  (status (fst (post_deposit user amount db)) = 200 ->
   get_balance user (snd (post_deposit user amount db))
   = read (post_deposit user amount db))
  /\ (status (fst (post_withdraw user amount db)) = 200 ->
      get_balance user (snd (post_withdraw user amount db))
      = read (post_withdraw user amount db)).
Proof.
  intros read. subst read. split.
  - intros H. apply post_deposit_200 in H as ([u Hu] & Hn & Hp).
    apply positive_iff in Hp as [Hnan Hpos].
    rewrite (post_deposit_ok _ _ _ _ Hu Hn Hnan Hpos). simpl fst. simpl snd.
    unfold get_balance. now rewrite lookup_set_balance.
  - intros H. apply post_withdraw_200 in H as (u & Hu & Hn & Hp & Hlt).
    apply positive_iff in Hp as [Hnan Hpos].
    rewrite (post_withdraw_ok _ _ _ _ Hu Hn Hnan Hpos Hlt). simpl fst. simpl snd.
    unfold get_balance. now rewrite lookup_set_balance.
Qed.

Lemma balance_reads_last_write_witness :
  status (fst (post_deposit Sample.john (JString "12.5") userDatabase)) = 200
  /\ get_balance Sample.john (snd (post_deposit Sample.john (JString "12.5") userDatabase))
     = json 200 [("username", FString "john_doe"); ("balance", FNumber 5012.5)].
Proof.
  split; [reflexivity|].
  exact (proj1 (balance_reads_last_write Sample.john (JString "12.5") userDatabase) eq_refl).
Defined.

(** X7: the insufficient-funds test is strict: an amount equal to a
    positive balance is withdrawn, and leaves the balance 0. *)
Theorem withdraw_whole_balance (user : jwt.Payload) (amount : JsValue)
    (db : gmap string User) (u : User) :
  db !! property_key (jwt.username user) = Some u ->
  in_range (balance u) = true -> (0 <? balance u)%float = true ->
  nullish amount = false -> parseFloat amount = balance u ->
  status (fst (post_withdraw user amount db)) = 200
  /\ field "balance" (fst (post_withdraw user amount db)) = FNumber 0
  /\ balance_of (property_key (jwt.username user)) (snd (post_withdraw user amount db))
     = Some 0%float.
Proof.
  intros Hu Hr Hpos Hn Ha.
  destruct (sub_self _ Hr) as [Hs Hl].
  apply positive_iff in Hpos as [Hnan Hp].
  rewrite <- Ha in Hnan, Hp. rewrite <- Ha in Hl at 2.
  rewrite (post_withdraw_ok _ _ _ _ Hu Hn Hnan Hp Hl). simpl fst. simpl snd.
  rewrite balance_of_set_balance, Ha, Hs. repeat split.
Qed.

Lemma withdraw_whole_balance_witness :
  userDatabase !! property_key (jwt.username Sample.john)
  = Some {| password := "password123"; balance := 5000 |}
  /\ parseFloat (JString "5000") = 5000%float
  /\ balance_of "john_doe" (snd (post_withdraw Sample.john (JString "5000") userDatabase))
     = Some 0%float.
Proof.
  split; [exact userDatabase_john|]. split; [reflexivity|].
  exact (proj2 (proj2 (withdraw_whole_balance Sample.john (JString "5000") userDatabase _
                         userDatabase_john eq_refl eq_refl eq_refl eq_refl))).
Defined.

(** X8: every database the server can be in holds the one account
    [john_doe], with its password, and a balance that is not below zero. *)
Theorem reachable_database_shape mac encode decode secret lifetime
    (db : gmap string User) :
  reachable mac encode decode secret lifetime db ->
  exists b, db = {[ "john_doe"%string := {| password := "password123"; balance := b |} ]}
            /\ (b <? 0)%float = false.
Proof.
  intros [reqs ->].
  set (db := run mac encode decode secret lifetime reqs userDatabase).
  assert (Hp : forall k, password <$> db !! k = password <$> userDatabase !! k)
    by (intros k; apply run_passwords).
  assert (Hn : balances_nonneg db) by (apply run_nonneg, userDatabase_nonneg).
  pose proof (Hp "john_doe"%string) as Hj. rewrite userDatabase_john in Hj.
  destruct (db !! "john_doe"%string) as [[pw b]|] eqn:Hu; [|discriminate Hj].
  injection Hj as ->. exists b. split; [|exact (Hn _ _ Hu)].
  apply map_eq. intros k. destruct (decide (k = "john_doe"%string)) as [->|Hk].
  - now rewrite Hu, lookup_singleton_eq.
  - rewrite lookup_singleton_ne by congruence.
    specialize (Hp k). unfold userDatabase in Hp.
    rewrite lookup_singleton_ne in Hp by congruence.
    now destruct (db !! k).
Qed.

Lemma reachable_database_shape_witness :
  reachable Sample.mac Sample.encode Sample.decode default_JWT_SECRET
    default_JWT_EXPIRES_IN
    (Sample.run [(PostDeposit (Some "Bearer john.valid"%string) (JString "Infinity"), 10)]
       userDatabase)
  /\ exists b,
       Sample.run [(PostDeposit (Some "Bearer john.valid"%string) (JString "Infinity"), 10)]
         userDatabase
       = {[ "john_doe"%string := {| password := "password123"; balance := b |} ]}
       /\ (b <? 0)%float = false.
Proof.
  assert (R : reachable Sample.mac Sample.encode Sample.decode default_JWT_SECRET
                default_JWT_EXPIRES_IN
                (Sample.run [(PostDeposit (Some "Bearer john.valid"%string)
                                (JString "Infinity"), 10)] userDatabase))
    by (now eexists).
  split; [exact R|].
  exact (reachable_database_shape _ _ _ _ _ _ R).
Defined.

(** X9: once a balance is [NaN], the insufficient-funds test never holds:
    every withdrawal of an amount above zero answers 200, and the balance
    stays [NaN]. *)
Theorem nan_balance_never_insufficient (user : jwt.Payload) (amount : JsValue)
    (db : gmap string User) (u : User) :
  db !! property_key (jwt.username user) = Some u ->
  is_nan (balance u) = true ->
  nullish amount = false -> (0 <? parseFloat amount)%float = true ->
  status (fst (post_withdraw user amount db)) = 200
  /\ exists b, balance_of (property_key (jwt.username user))
                 (snd (post_withdraw user amount db)) = Some b
               /\ is_nan b = true.
Proof.
  intros Hu Hb Hn Hp.
  destruct (nan_sub (balance u) (parseFloat amount) Hb) as [Hlt Hnan'].
  apply positive_iff in Hp as [Hnan Hpos].
  rewrite (post_withdraw_ok _ _ _ _ Hu Hn Hnan Hpos Hlt). simpl fst. simpl snd.
  split; [reflexivity|]. eexists. split; [apply balance_of_set_balance|exact Hnan'].
Qed.

Lemma nan_balance_never_insufficient_witness :
  let db := Sample.run
              [(PostDeposit (Some "Bearer john.valid"%string) (JString "Infinity"), 10);
               (PostWithdraw (Some "Bearer john.valid"%string) (JString "Infinity"), 11)]
              userDatabase in
  (exists u, db !! property_key (jwt.username Sample.john) = Some u
             /\ is_nan (balance u) = true)
  /\ status (fst (post_withdraw Sample.john (JNumber 1000000) db)) = 200.
Proof.
  intros db.
  assert (Hu : db !! property_key (jwt.username Sample.john)
               = Some {| password := "password123"; balance := nan |})
    by (vm_compute; reflexivity).
  split; [eexists; split; [exact Hu|reflexivity]|].
  exact (proj1 (nan_balance_never_insufficient Sample.john (JNumber 1000000) db _
                  Hu eq_refl eq_refl eq_refl)).
Defined.

End LedgerComposition.

(** ** Whole numbers *)

Section WholeNumbers.

Lemma perform_credit (user : jwt.Payload) (db : gmap string User) (u : User) (n m : Z) :
  db !! property_key (jwt.username user) = Some u ->
  balance u = whole n -> 0 <= n -> 0 < m -> n + m < 2 ^ 53 ->
  perform user db (Credit m)
  = set_balance (property_key (jwt.username user)) u (whole (n + m)) db.
Proof.
  intros Hu Hb Hn Hm H. unfold perform.
  destruct (whole_positive m ltac:(lia)) as [Hnan Hpos].
  pose proof (parseFloat_whole m ltac:(lia)) as Hp.
  assert (Hnull : nullish (JNumber (whole m)) = false) by reflexivity.
  set (amount := JNumber (whole m)) in *.
  rewrite <- Hp in Hnan, Hpos.
  rewrite (post_deposit_ok user amount db u Hu Hnull Hnan Hpos).
  unfold snd. now rewrite Hp, Hb, add_whole by lia.
Qed.

Lemma perform_debit (user : jwt.Payload) (db : gmap string User) (u : User) (n m : Z) :
  db !! property_key (jwt.username user) = Some u ->
  balance u = whole n -> 0 <= n < 2 ^ 53 -> 0 < m < 2 ^ 53 ->
  perform user db (Debit m)
  = if n <? m then db
    else set_balance (property_key (jwt.username user)) u (whole (n - m)) db.
Proof.
  intros Hu Hb Hn Hm. unfold perform.
  destruct (whole_positive m ltac:(lia)) as [Hnan Hpos].
  pose proof (parseFloat_whole m ltac:(lia)) as Hp.
  assert (Hnull : nullish (JNumber (whole m)) = false) by reflexivity.
  set (amount := JNumber (whole m)) in *.
  rewrite <- Hp in Hnan, Hpos.
  destruct (Z.ltb_spec n m) as [Hlt|Hge].
  - unfold post_withdraw. rewrite Hu, Hnull.
    unfold isNaN. rewrite Hnan, Hpos, Hp, Hb, ltb_whole_lt by lia. reflexivity.
  - assert (Hl : (balance u <? parseFloat amount)%float = false)
      by (rewrite Hp, Hb; apply ltb_whole; lia).
    rewrite (post_withdraw_ok user amount db u Hu Hnull Hnan Hpos Hl).
    unfold snd. rewrite Hp, Hb. replace n with ((n - m) + m) at 1 by lia.
    now rewrite sub_whole by lia.
Qed.

Lemma ledger_whole (user : jwt.Payload) (ops : list Op) :
  forall (db : gmap string User) (u : User) (n : Z),
    db !! property_key (jwt.username user) = Some u ->
    balance u = whole n -> 0 <= n ->
    Forall (fun op => 0 < amount_of op < 2 ^ 53) ops ->
    n + credits ops < 2 ^ 53 ->
    0 <= ledger_Z ops n < 2 ^ 53
    /\ balance_of (property_key (jwt.username user)) (perform_all user ops db)
       = Some (whole (ledger_Z ops n)).
Proof.
  induction ops as [|op ops IH]; intros db u n Hu Hb Hn Hops Hsum.
  - unfold ledger_Z, perform_all, credits in *. cbn [fold_left fold_right] in *.
    split; [lia|]. unfold balance_of. rewrite <- Hb, Hu. reflexivity.
  - inversion Hops as [|? ? Hop Hrest]; subst.
    assert (Hc : 0 <= credits ops).
    { clear -Hrest. induction Hrest as [|o l Ho _ IHl]; simpl; [lia|].
      destruct o; simpl in *; lia. }
    change (perform_all user (op :: ops) db)
      with (perform_all user ops (perform user db op)).
    change (ledger_Z (op :: ops) n) with (ledger_Z ops (ledger_step n op)).
    destruct op as [m|m]; simpl in Hop, Hsum; simpl ledger_step.
    + rewrite (perform_credit user db u n m Hu Hb) by lia.
      apply (IH _ {| password := password u; balance := whole (n + m) |});
        [apply lookup_set_balance|reflexivity|lia|exact Hrest|lia].
    + rewrite (perform_debit user db u n m Hu Hb) by lia.
      destruct (n <? m) eqn:E.
      * now apply (IH db u n).
      * apply Z.ltb_ge in E.
        apply (IH _ {| password := password u; balance := whole (n - m) |});
          [apply lookup_set_balance|reflexivity|lia|exact Hrest|lia].
Qed.

(** X10: on whole numbers the handlers compute the integer ledger: from a
    whole balance, deposits and withdrawals of whole amounts above zero,
    with the balance plus all the deposits below 2^53, leave the balance the
    integer ledger gives, where a withdrawal above the balance is refused. *)
Theorem whole_number_ledger (user : jwt.Payload) (ops : list Op)
    (db : gmap string User) (u : User) (n : Z) :
  db !! property_key (jwt.username user) = Some u ->
  balance u = whole n -> 0 <= n ->
  Forall (fun op => 0 < amount_of op < 2 ^ 53) ops ->
  n + credits ops < 2 ^ 53 ->
  balance_of (property_key (jwt.username user)) (perform_all user ops db)
  = Some (whole (ledger_Z ops n))
  /\ 0 <= ledger_Z ops n.
Proof.
  intros Hu Hb Hn Hops Hsum.
  destruct (ledger_whole user ops db u n Hu Hb Hn Hops Hsum) as [Hr He].
  split; [exact He|lia].
Qed.

Lemma whole_number_ledger_witness :
  let ops := [Credit 1000; Debit 500; Debit 50000; Debit 5500; Credit 7] in
  userDatabase !! property_key (jwt.username Sample.john)
  = Some {| password := "password123"; balance := 5000 |}
  /\ 5000%float = whole 5000
  /\ Forall (fun op => 0 < amount_of op < 2 ^ 53) ops
  /\ 5000 + credits ops < 2 ^ 53
  /\ ledger_Z ops 5000 = 7
  /\ balance_of "john_doe" (perform_all Sample.john ops userDatabase) = Some (whole 7).
Proof.
  intros ops.
  assert (Hops : Forall (fun op => 0 < amount_of op < 2 ^ 53) ops)
    by (repeat constructor).
  assert (Hsum : 5000 + credits ops < 2 ^ 53) by reflexivity.
  split; [exact userDatabase_john|]. split; [reflexivity|].
  split; [exact Hops|]. split; [exact Hsum|]. split; [reflexivity|].
  exact (proj1 (whole_number_ledger Sample.john ops userDatabase _ 5000
                  userDatabase_john eq_refl ltac:(lia) Hops Hsum)).
Defined.

End WholeNumbers.

(** ** More on the gate and the issuer *)

Section GateCoverage.

(** The middleware is [authMiddleware_with] at the library's [verify]. *)
Lemma authMiddleware_with_verify mac decode secret (header : option string) (now : Z) :
  authMiddleware mac decode secret header now
  = authMiddleware_with (fun token => jwt.verify mac decode token secret now) header.
Proof.
  unfold authMiddleware, authMiddleware_with, verify_token, catch_verify.
  destruct header as [h|]; [|reflexivity].
  destruct (negb (truthy (JString h))); [reflexivity|]. cbv zeta.
  destruct (negb (length (split " " h) =? 2)%nat
            || negb (nth 0 (split " " h) "" =? "Bearer")%string); [reflexivity|].
  destruct (jwt.verify _ _ _ _ _) as [p|e]; [reflexivity|].
  destruct (jwt.name e =? "TokenExpiredError")%string; [reflexivity|].
  now destruct (jwt.name e =? "JsonWebTokenError")%string.
Qed.

Lemma catch_verify_401 (e : jwt.Error) : status (catch_verify e) = 401.
Proof.
  unfold catch_verify.
  destruct (jwt.name e =? "TokenExpiredError")%string; [reflexivity|].
  now destruct (jwt.name e =? "JsonWebTokenError")%string.
Qed.

(** What the middleware does with a header, whatever [verify] answers. *)
Lemma authMiddleware_with_cases (verify : string -> jwt.Result) (header : option string) :
  (authMiddleware_with verify header = Respond NoToken
   /\ (header = None \/ header = Some ""%string))
  \/ (authMiddleware_with verify header = Respond MalformedHeader
      /\ ~ (exists h token, header = Some h /\ bearer_shape h token))
  \/ (exists h token, header = Some h /\ bearer_shape h token
      /\ authMiddleware_with verify header
         = match verify token with
           | jwt.Decoded decoded => Next decoded
           | jwt.Throw verifyError => Respond (catch_verify verifyError)
           end).
Proof.
  unfold authMiddleware_with. destruct header as [h|]; [|left; auto].
  destruct (String.eqb_spec h "") as [->|Hh]; [left; auto|].
  assert (Ht : truthy (JString h) = true).
  { simpl. apply negb_true_iff, String.eqb_neq, Hh. }
  rewrite Ht. simpl negb at 1. cbv iota zeta. right.
  assert (Hno : forall parts, split " " h = parts ->
            (forall b, parts <> ["Bearer"%string; b]) ->
            ~ (exists h0 token, Some h = Some h0 /\ bearer_shape h0 token)).
  { intros parts Hs Hne (h0 & token & [= <-] & -> & Hn).
    rewrite (split_bearer _ Hn) in Hs. now apply (Hne token). }
  destruct (split " " h) as [|a [|b [|c l]]] eqn:Hs; simpl;
    try (left; split; [reflexivity|]; apply (Hno _ eq_refl); discriminate).
  destruct (String.eqb_spec a "Bearer") as [->|Ha]; simpl.
  - right. exists h, b. split; [reflexivity|]. split; [|reflexivity].
    apply split_two in Hs as [-> Hn]. now split.
  - left. split; [reflexivity|]. apply (Hno _ eq_refl). intros b' [= E _]. now apply Ha.
Qed.

(** X11: whatever the token library answers, the middleware lets a request
    through only with what [verify] decoded from the token of a header
    [Bearer <token>], answers every other request with status 401, and does
    not ask [verify] about a header of another shape. *)
Theorem gate_with_outcomes (verify : string -> jwt.Result) (header : option string) :
  ((exists h token p, header = Some h /\ bearer_shape h token
                      /\ verify token = jwt.Decoded p
                      /\ authMiddleware_with verify header = Next p)
   \/ (exists r, authMiddleware_with verify header = Respond r /\ status r = 401))
  /\ (~ (exists h token, header = Some h /\ bearer_shape h token) ->
      forall verify', authMiddleware_with verify' header = authMiddleware_with verify header).
Proof.
  split.
  - destruct (authMiddleware_with_cases verify header)
      as [[E _]|[[E _]|(h & token & Hh & Hs & E)]].
    + right. now exists NoToken.
    + right. now exists MalformedHeader.
    + destruct (verify token) as [p|e] eqn:Hv.
      * left. now exists h, token, p.
      * right. exists (catch_verify e). split; [exact E|apply catch_verify_401].
  - intros Hno verify'. unfold authMiddleware_with.
    destruct header as [h|]; [|reflexivity].
    destruct (negb (truthy (JString h))); [reflexivity|]. cbv zeta.
    destruct (negb (length (split " " h) =? 2)%nat
              || negb (nth 0 (split " " h) "" =? "Bearer")%string) eqn:C;
      [reflexivity|].
    exfalso. apply Hno. exists h.
    destruct (split " " h) as [|a [|b [|c l]]] eqn:Hs; try discriminate C.
    simpl in C. rewrite negb_false_iff in C. apply String.eqb_eq in C as ->.
    exists b. apply split_two in Hs as [-> Hn]. now split.
Qed.

(** A request is let through by the gate exactly with a header
    [Bearer <token>] whose token parses, is signed with the secret and is
    not expired. *)
Lemma gate_next_iff mac decode secret (header : option string) (now : Z)
    (p : jwt.Payload) :
  authMiddleware mac decode secret header now = Next p
  <-> exists token j,
        header = Some ("Bearer " +:+ token)%string
        /\ contains " " token = false
        /\ decode token = Some j
        /\ jwt.signature j = mac secret (jwt.payload j)
        /\ jwt.payload j = p
        /\ now < jwt.exp p.
Proof.
  rewrite authMiddleware_with_verify. split.
  - intros H.
    destruct (authMiddleware_with_cases
                (fun token => jwt.verify mac decode token secret now) header)
      as [[E _]|[[E _]|(h & token & -> & [-> Hn] & E)]]; try congruence.
    rewrite E in H. unfold jwt.verify in H.
    destruct (decode token) as [j|] eqn:Hd; [|discriminate H].
    destruct (jwt.signature j =? mac secret (jwt.payload j))%string eqn:Hs;
      [|discriminate H].
    destruct (now <? jwt.exp (jwt.payload j)) eqn:Hexp; [|discriminate H].
    injection H as <-. exists token, j.
    apply String.eqb_eq in Hs. apply Z.ltb_lt in Hexp. now repeat split.
  - intros (token & j & -> & Hn & Hd & Hs & <- & Hexp).
    rewrite <- authMiddleware_with_verify, (gate_bearer _ _ _ _ _ Hn).
    unfold verify_token, jwt.verify. rewrite Hd, Hs, String.eqb_refl.
    apply Z.ltb_lt in Hexp. now rewrite Hexp.
Qed.

(** X12: the gate lets a request through, with claims [p], exactly when the
    header is [Bearer <token>] and the token parses to the claims [p] with a
    signature made with the secret and an expiry in the future. *)
Theorem gate_accepts_iff mac decode secret (header : option string) (now : Z)
    (p : jwt.Payload) :
  authMiddleware mac decode secret header now = Next p
  <-> exists token j,
        header = Some ("Bearer " +:+ token)%string
        /\ contains " " token = false
        /\ decode token = Some j
        /\ jwt.signature j = mac secret (jwt.payload j)
        /\ jwt.payload j = p
        /\ now < jwt.exp p.
Proof. apply gate_next_iff. Qed.

Lemma handler_failure (user : jwt.Payload) (amount : JsValue) (db : gmap string User) :
  (snd (post_deposit user amount db) <> db ->
   status (fst (post_deposit user amount db)) = 200)
  /\ (snd (post_withdraw user amount db) <> db ->
      status (fst (post_withdraw user amount db)) = 200).
Proof.
  unfold post_deposit, post_withdraw.
  destruct (db !! property_key (jwt.username user)) as [u|]; simpl;
    [|split; intros H; now contradiction H].
  destruct (nullish amount); simpl; [split; intros H; now contradiction H|].
  destruct (isNaN (parseFloat amount)); simpl; [split; intros H; now contradiction H|].
  destruct (parseFloat amount <=? 0)%float; simpl;
    [split; intros H; now contradiction H|].
  split; [reflexivity|].
  destruct (balance u <? parseFloat amount)%float; simpl;
    [intros H; now contradiction H|reflexivity].
Qed.

(** X13: a request changes the database only if it is a deposit or a
    withdrawal carrying a token that parses, is signed with the secret and
    is not expired, for an identity that has an account, with an amount
    above zero. *)
Theorem change_requires_valid_token mac encode decode secret lifetime
    (req : Request) (now : Z) (db : gmap string User) :
  snd (app mac encode decode secret lifetime req now db) <> db ->
  authorised_change mac decode secret req now db.
Proof.
  intros H. unfold authorised_change.
  destruct req as [un pw|a|a amount|a amount]; simpl in H.
  - now contradiction H.
  - unfold protected in H. destruct (authMiddleware _ _ _ _ _); now contradiction H.
  - unfold protected in H.
    destruct (authMiddleware mac decode secret a now) as [p|r] eqn:G;
      [|now contradiction H].
    apply gate_next_iff in G as (token & j & -> & _ & Hd & Hs & <- & Hexp).
    apply handler_failure in H.
    apply post_deposit_200 in H as ([u Hu] & Hn & Hp).
    exists token, j, amount, u. repeat split; auto.
  - unfold protected in H.
    destruct (authMiddleware mac decode secret a now) as [p|r] eqn:G;
      [|now contradiction H].
    apply gate_next_iff in G as (token & j & -> & _ & Hd & Hs & <- & Hexp).
    apply handler_failure in H.
    apply post_withdraw_200 in H as (u & Hu & Hn & Hp & _).
    exists token, j, amount, u. repeat split; auto.
Qed.

End GateCoverage.

Section GateExamples.

Lemma gate_with_outcomes_witness :
  ~ (exists h token, Some "Token abc"%string = Some h /\ bearer_shape h token)
  /\ authMiddleware_with (fun _ => jwt.Decoded Sample.mallory) (Some "Token abc"%string)
     = Respond MalformedHeader.
Proof.
  assert (Hno : ~ (exists h token, Some "Token abc"%string = Some h
                                   /\ bearer_shape h token)).
  { intros (h & token & [= <-] & Hs & _). discriminate Hs. }
  split; [exact Hno|].
  exact (proj2 (gate_with_outcomes
                  (fun token => jwt.verify Sample.mac Sample.decode token
                                  default_JWT_SECRET 0)
                  (Some "Token abc"%string)) Hno (fun _ => jwt.Decoded Sample.mallory)).
Defined.

Lemma gate_accepts_iff_witness :
  Sample.authMiddleware (Some "Bearer john.valid"%string) 10 = Next Sample.john
  /\ exists token j,
       Some "Bearer john.valid"%string = Some ("Bearer " +:+ token)%string
       /\ contains " " token = false
       /\ Sample.decode token = Some j
       /\ jwt.signature j = Sample.mac default_JWT_SECRET (jwt.payload j)
       /\ jwt.payload j = Sample.john
       /\ 10 < jwt.exp Sample.john.
Proof.
  assert (H : Sample.authMiddleware (Some "Bearer john.valid"%string) 10 = Next Sample.john)
    by reflexivity.
  split; [exact H|].
  exact (proj1 (gate_accepts_iff Sample.mac Sample.decode default_JWT_SECRET
                  (Some "Bearer john.valid"%string) 10 Sample.john) H).
Defined.

Lemma change_requires_valid_token_witness :
  let req := PostDeposit (Some "Bearer john.valid"%string) (JNumber 1000) in
  snd (Sample.app req 10 userDatabase) <> userDatabase
  /\ authorised_change Sample.mac Sample.decode default_JWT_SECRET req 10 userDatabase.
Proof.
  intros req.
  assert (Hne : snd (Sample.app req 10 userDatabase) <> userDatabase).
  { intros E. apply (f_equal (balance_of "john_doe")) in E.
    apply (f_equal (fun o => match o with
                             | Some x => (x <? 5500)%float
                             | None => false
                             end)) in E.
    vm_compute in E. discriminate E. }
  split; [exact Hne|].
  exact (change_requires_valid_token Sample.mac Sample.encode Sample.decode
           default_JWT_SECRET default_JWT_EXPIRES_IN req 10 userDatabase Hne).
Defined.

End GateExamples.

Section IssuerCoverage.

Variable mac : string -> jwt.Payload -> string.
Variable encode : jwt.Jws -> string.
Variable decode : string -> option jwt.Jws.
Variable JWT_SECRET : string.
Variable JWT_EXPIRES_IN : Z.

Lemma post_login_200 (username password : JsValue) (now : Z) :
  status (post_login mac encode JWT_SECRET JWT_EXPIRES_IN username password now) = 200
  <-> username = JString VALID_USERNAME /\ password = JString VALID_PASSWORD.
Proof.
  unfold post_login. split.
  - destruct (negb (truthy username) || negb (truthy password)); [discriminate|].
    destruct (strict_eq_string username VALID_USERNAME) eqn:Eu; [|discriminate].
    destruct (strict_eq_string password VALID_PASSWORD) eqn:Ep; [|discriminate].
    intros _. destruct username; try discriminate Eu.
    destruct password; try discriminate Ep.
    simpl in Eu, Ep. apply String.eqb_eq in Eu, Ep. now subst.
  - intros [-> ->]. reflexivity.
Qed.

(** X14: a login answers 200 exactly for the pair (john_doe, password123),
    400 or 401 otherwise; the 200 carries the token signed with the secret
    for the identity [john_doe], issued now and expiring after the
    configured lifetime. *)
Theorem login_succeeds_iff (username password : JsValue) (now : Z) :
  let res := post_login mac encode JWT_SECRET JWT_EXPIRES_IN username password now in
  (status res = 200
   <-> username = JString VALID_USERNAME /\ password = JString VALID_PASSWORD)
  /\ (status res = 200 \/ status res = 400 \/ status res = 401)
  /\ (status res = 200 ->
      field "token" res
      = FString (encode
          {| jwt.payload := {| jwt.username := Some VALID_USERNAME; jwt.iat := now;
                               jwt.exp := now + JWT_EXPIRES_IN |};
             jwt.signature :=
               mac JWT_SECRET {| jwt.username := Some VALID_USERNAME; jwt.iat := now;
                                 jwt.exp := now + JWT_EXPIRES_IN |} |})).
Proof.
  intros res. subst res. split; [apply post_login_200|]. split.
  - unfold post_login.
    destruct (negb (truthy username) || negb (truthy password)); [auto|].
    destruct (negb (strict_eq_string username VALID_USERNAME)
              || negb (strict_eq_string password VALID_PASSWORD)); auto.
  - intros H. apply post_login_200 in H as [-> ->]. reflexivity.
Qed.

(** X15: when the token a login returns is read back by the parser and has
    no space, presenting it as [Bearer <token>] opens the balance route
    until the lifetime has passed, and is answered [TokenExpired] with the
    expiry from then on; the database is not changed. *)
Theorem login_token_round_trip (issued now : Z) (db : gmap string User) :
  let claims := {| jwt.username := Some VALID_USERNAME; jwt.iat := issued;
                   jwt.exp := issued + JWT_EXPIRES_IN |} in
  let jws := {| jwt.payload := claims; jwt.signature := mac JWT_SECRET claims |} in
  let login := post_login mac encode JWT_SECRET JWT_EXPIRES_IN
                 (JString VALID_USERNAME) (JString VALID_PASSWORD) issued in
  let read := app mac encode decode JWT_SECRET JWT_EXPIRES_IN
                (GetBalance (Some ("Bearer " +:+ encode jws)%string)) now db in
  decode (encode jws) = Some jws ->
  contains " " (encode jws) = false ->
  field "token" login = FString (encode jws)
  /\ (now < issued + JWT_EXPIRES_IN -> read = (get_balance claims db, db))
  /\ (issued + JWT_EXPIRES_IN <= now ->
      read = (TokenExpired (Some (issued + JWT_EXPIRES_IN)), db)).
Proof.
  intros claims jws login read Hd Hn. subst login read.
  split; [reflexivity|].
  unfold app, protected.
  rewrite (gate_valid_token mac decode JWT_SECRET (encode jws) claims now Hd Hn).
  change (jwt.exp claims) with (issued + JWT_EXPIRES_IN).
  split; intros H.
  - apply Z.ltb_lt in H. now rewrite H.
  - apply Z.ltb_ge in H. now rewrite H.
Qed.

End IssuerCoverage.

Section IssuerExamples.

Lemma login_token_round_trip_witness :
  Sample.decode "john.valid" = Some (Sample.signed default_JWT_SECRET Sample.john)
  /\ contains " " "john.valid" = false
  /\ field "token" (Sample.post_login (JString "john_doe") (JString "password123") 0)
     = FString "john.valid"
  /\ Sample.app (GetBalance (Some "Bearer john.valid"%string)) 3600 userDatabase
     = (json 200 [("username", FString "john_doe"); ("balance", FNumber 5000)],
        userDatabase)
  /\ Sample.app (GetBalance (Some "Bearer john.valid"%string)) 86400 userDatabase
     = (TokenExpired (Some 86400), userDatabase).
Proof.
  pose proof (login_token_round_trip Sample.mac Sample.encode Sample.decode
                default_JWT_SECRET default_JWT_EXPIRES_IN 0) as T.
  destruct (T 3600 userDatabase eq_refl eq_refl) as (Ht & Hok & _).
  destruct (T 86400 userDatabase eq_refl eq_refl) as (_ & _ & Hexp).
  split; [reflexivity|]. split; [reflexivity|]. split; [exact Ht|]. split.
  - exact (Hok eq_refl).
  - apply Hexp. discriminate.
Defined.

End IssuerExamples.
